(** * SpaceShooterGame: the game-state store and the frame updater

    A shallow embedding of [src/components/SpaceShooterGame.tsx].

    Modelling conventions.
    - A JavaScript [number] holding a coordinate, a size, a velocity or the
      countdown is an exact rational ([Q]): the development is about the
      arithmetic the program writes down, without rounding, NaN or
      infinities.  Timestamps ([Date.now()]) and the integer counters
      ([bulletsRemaining], [hp]) are integers ([Z]).
    - The [sprite] field and every call into the renderer
      ([createBackground], [showMessage], [app.stage.*], [setGameInfo]) are
      an output sink that the store never reads back; they are left out.
    - [Math.random()] and [Date.now()] are inputs of the operation that
      calls them.
    - Arrays are lists updated by index ([!!], [<[i:=v]>], [delete] for
      [splice(i, 1)]); the [keys] object is a finite map. *)

From Stdlib Require Import QArith Qabs Qminmax Lqa ZArith.
From stdpp Require Import gmap strings list fin_maps.
From Stdlib Require Import Qround.

(** ** Data model *)

Record GameObject := mkGameObject {
  x : Q;
  y : Q;
  width : Q;
  height : Q;
  vx : option Q;
  vy : option Q
}.

(** [interface Boss extends GameObject]: the inherited part is [body]. *)
Record Boss := mkBoss {
  body :> GameObject;
  hp : Z;
  maxHp : Z;
  lastShot : Z;
  movingRight : bool;
  moveStartTime : Z
}.

Inductive GameState := menu | level1 | level2 | win | lose.

Global Instance GameState_eq_dec : EqDecision GameState :=
  ltac:(solve_decision).

(** The object behind [gameStateRef], together with [appRef]: [appRef] is
    [true] once [app.init] has resolved and the application is attached. *)
Record Store := mkStore {
  appRef : bool;
  player : option GameObject;
  bullets : list GameObject;
  asteroids : list GameObject;
  boss : option Boss;
  bossBullets : list GameObject;
  keys : gmap string bool;
  bulletsRemaining : Z;
  timeRemaining : Q;
  gameState : GameState;
  lastTime : Z
}.

(** [app.init({ width: 1280, height: 720, ... })] *)
Definition screen_width : Q := 1280.
Definition screen_height : Q := 720.

(** The initial value of [gameStateRef], before the application is attached. *)
Definition initialStore : Store :=
  {| appRef := false; player := None; bullets := []; asteroids := [];
     boss := None; bossBullets := []; keys := ∅; bulletsRemaining := 10;
     timeRemaining := 60; gameState := menu; lastTime := 0 |}.

(** Field assignments. *)
Definition set_appRef (v : bool) (s : Store) : Store :=
  mkStore v (player s) (bullets s) (asteroids s) (boss s) (bossBullets s)
          (keys s) (bulletsRemaining s) (timeRemaining s) (gameState s) (lastTime s).
Definition set_player (v : option GameObject) (s : Store) : Store :=
  mkStore (appRef s) v (bullets s) (asteroids s) (boss s) (bossBullets s)
          (keys s) (bulletsRemaining s) (timeRemaining s) (gameState s) (lastTime s).
Definition set_bullets (v : list GameObject) (s : Store) : Store :=
  mkStore (appRef s) (player s) v (asteroids s) (boss s) (bossBullets s)
          (keys s) (bulletsRemaining s) (timeRemaining s) (gameState s) (lastTime s).
Definition set_asteroids (v : list GameObject) (s : Store) : Store :=
  mkStore (appRef s) (player s) (bullets s) v (boss s) (bossBullets s)
          (keys s) (bulletsRemaining s) (timeRemaining s) (gameState s) (lastTime s).
Definition set_boss (v : option Boss) (s : Store) : Store :=
  mkStore (appRef s) (player s) (bullets s) (asteroids s) v (bossBullets s)
          (keys s) (bulletsRemaining s) (timeRemaining s) (gameState s) (lastTime s).
Definition set_bossBullets (v : list GameObject) (s : Store) : Store :=
  mkStore (appRef s) (player s) (bullets s) (asteroids s) (boss s) v
          (keys s) (bulletsRemaining s) (timeRemaining s) (gameState s) (lastTime s).
Definition set_keys (v : gmap string bool) (s : Store) : Store :=
  mkStore (appRef s) (player s) (bullets s) (asteroids s) (boss s) (bossBullets s)
          v (bulletsRemaining s) (timeRemaining s) (gameState s) (lastTime s).
Definition set_bulletsRemaining (v : Z) (s : Store) : Store :=
  mkStore (appRef s) (player s) (bullets s) (asteroids s) (boss s) (bossBullets s)
          (keys s) v (timeRemaining s) (gameState s) (lastTime s).
Definition set_timeRemaining (v : Q) (s : Store) : Store :=
  mkStore (appRef s) (player s) (bullets s) (asteroids s) (boss s) (bossBullets s)
          (keys s) (bulletsRemaining s) v (gameState s) (lastTime s).
Definition set_gameState (v : GameState) (s : Store) : Store :=
  mkStore (appRef s) (player s) (bullets s) (asteroids s) (boss s) (bossBullets s)
          (keys s) (bulletsRemaining s) (timeRemaining s) v (lastTime s).
Definition set_lastTime (v : Z) (s : Store) : Store :=
  mkStore (appRef s) (player s) (bullets s) (asteroids s) (boss s) (bossBullets s)
          (keys s) (bulletsRemaining s) (timeRemaining s) (gameState s) v.

Definition set_x (v : Q) (o : GameObject) : GameObject :=
  mkGameObject v (y o) (width o) (height o) (vx o) (vy o).
Definition set_y (v : Q) (o : GameObject) : GameObject :=
  mkGameObject (x o) v (width o) (height o) (vx o) (vy o).

(** ** Comparisons on numbers: JavaScript's [<] and [>]. *)
Definition Qltb (a b : Q) : bool := negb (Qle_bool b a).
Definition Qgtb (a b : Q) : bool := Qltb b a.

(** ** Object constructors *)

Definition createPlayer : GameObject :=
  {| x := screen_width / 2; y := screen_height - 60;
     width := 30; height := 40; vx := None; vy := None |}.

Definition createBullet (bx by_ : Q) (isPlayerBullet : bool) : GameObject :=
  {| x := bx; y := by_; width := 6; height := 6; vx := None;
     vy := Some (if isPlayerBullet then -8 else 6)%Q |}.

Definition createAsteroid (ax ay : Q) : GameObject :=
  {| x := ax; y := ay; width := 60; height := 60; vx := None; vy := None |}.

(** [now] is the value [Date.now()] returns inside [createBoss]. *)
Definition createBoss (now : Z) : Boss :=
  {| body := {| x := screen_width / 2; y := 100; width := 80; height := 60;
                vx := None; vy := None |};
     hp := 4; maxHp := 4; lastShot := 0; movingRight := true;
     moveStartTime := now |}.

(** ** The collision test *)

Definition checkCollision (obj1 obj2 : GameObject) : bool :=
  let obj1Left := (x obj1 - width obj1 / 2)%Q in
  let obj1Right := (x obj1 + width obj1 / 2)%Q in
  let obj1Top := (y obj1 - height obj1 / 2)%Q in
  let obj1Bottom := (y obj1 + height obj1 / 2)%Q in
  let obj2Left := (x obj2 - width obj2 / 2)%Q in
  let obj2Right := (x obj2 + width obj2 / 2)%Q in
  let obj2Top := (y obj2 - height obj2 / 2)%Q in
  let obj2Bottom := (y obj2 + height obj2 / 2)%Q in
  Qltb obj1Left obj2Right &&
  Qgtb obj1Right obj2Left &&
  Qltb obj1Top obj2Bottom &&
  Qgtb obj1Bottom obj2Top.

(** The bounding box of an entity and the area two boxes share. *)
Definition left (o : GameObject) : Q := x o - width o / 2.
Definition right (o : GameObject) : Q := x o + width o / 2.
Definition top (o : GameObject) : Q := y o - height o / 2.
Definition bottom (o : GameObject) : Q := y o + height o / 2.


(** ** Control flow: a tick either returns early or goes on to the next block *)

Inductive Flow := Return (s : Store) | Continue (s : Store).

Definition andThen (f : Flow) (k : Store -> Flow) : Flow :=
  match f with
  | Return s => Return s
  | Continue s => k s
  end.

Definition result (f : Flow) : Store :=
  match f with Return s | Continue s => s end.

Notation "f >>> k" := (andThen f k) (at level 61, left associativity).
Notation "s |> f" := (f s) (at level 45, left associativity, only parsing).

(** [Array.prototype.forEach] over an array of the store that the callback
    may itself shorten: the number of rounds is the length at the start,
    and an index that is no longer present is skipped. *)
Fixpoint forEach_from {A} (arr : Store -> list A)
    (callback : A -> nat -> Store -> Store)
    (rounds index : nat) (s : Store) : Store :=
  match rounds with
  | O => s
  | S rounds' =>
      forEach_from arr callback rounds' (S index)
        (match arr s !! index with
         | Some a => callback a index s
         | None => s
         end)
  end.

Definition forEach {A} (arr : Store -> list A)
    (callback : A -> nat -> Store -> Store) (s : Store) : Store :=
  forEach_from arr callback (length (arr s)) 0 s.

(** ** Level initialisation *)

(** The loop [for (let i = 0; i < 5; i++)] of [startLevel1]; [rnd (2*i)]
    and [rnd (2*i+1)] are the two draws of [Math.random()] that place
    asteroid [i]. *)
Fixpoint pushAsteroids (rnd : nat -> Q) (i rounds : nat)
    (acc : list GameObject) : list GameObject :=
  match rounds with
  | O => acc
  | S rounds' =>
      let ax := (rnd (2 * i)%nat * (screen_width - 60) + 30)%Q in
      let ay := (rnd (2 * i + 1)%nat * 300 + 50)%Q in
      pushAsteroids rnd (S i) rounds' (acc ++ [createAsteroid ax ay])
  end.

Definition startLevel1 (rnd : nat -> Q) (now : Z) (s : Store) : Store :=
  if negb (appRef s) then s else
  s |> set_player (Some createPlayer)
    |> set_asteroids (pushAsteroids rnd 0 5 [])
    |> set_bullets []
    |> set_bulletsRemaining 10
    |> set_timeRemaining 60
    |> set_gameState level1
    |> set_lastTime now.

Definition startLevel2 (bossTime now : Z) (s : Store) : Store :=
  if negb (appRef s) then s else
  s |> set_player (Some createPlayer)
    |> set_boss (Some (createBoss bossTime))
    |> set_bossBullets []
    |> set_bullets []
    |> set_bulletsRemaining 10
    |> set_timeRemaining 60
    |> set_gameState level2
    |> set_lastTime now.

Definition restartGame (s : Store) : Store :=
  if negb (appRef s) then s else
  s |> set_gameState menu
    |> set_bullets []
    |> set_asteroids []
    |> set_boss None
    |> set_bossBullets []
    |> set_player None.

(** [app.init(...).then(...)]: the application is attached. *)
Definition appInit (s : Store) : Store := set_appRef true s.

(** ** Keyboard handlers *)

Definition handleKeyDown (code : string) (s : Store) : Store :=
  let s := set_keys (<[code := true]> (keys s)) s in
  if bool_decide (code = "Space") && (0 <? bulletsRemaining s)%Z then
    match player s with
    | Some p =>
        s |> set_bullets (bullets s ++ [createBullet (x p) (y p - 20) true])
          |> set_bulletsRemaining (bulletsRemaining s - 1)
    | None => s
    end
  else s.

Definition handleKeyUp (code : string) (s : Store) : Store :=
  set_keys (<[code := false]> (keys s)) s.

(** [gameState.keys[k]], where a missing key reads as falsy. *)
Definition keyHeld (k : string) (s : Store) : bool :=
  default false (keys s !! k).

(** ** The frame updater *)

Definition checkActive (s : Store) : Flow :=
  if negb (appRef s) then Return s else
  match gameState s with
  | menu | win | lose => Return s
  | _ => Continue s
  end.

(** The store once the timer has been charged for the elapsed time. *)
Definition afterTimer (currentTime : Z) (s : Store) : Store :=
  let deltaTime := (inject_Z (currentTime - lastTime s) / 1000)%Q in
  s |> set_timeRemaining (timeRemaining s - deltaTime)
    |> set_lastTime currentTime.

Definition updateTimer (currentTime : Z) (s : Store) : Flow :=
  let s := afterTimer currentTime s in
  if Qle_bool (timeRemaining s) 0
  then Return (set_gameState lose s)
  else Continue s.

Definition playerMovement (s : Store) : Store :=
  match player s with
  | Some p =>
      let p := if keyHeld "ArrowLeft" s && Qgtb (x p) 15
               then set_x (x p - 5) p else p in
      let p := if keyHeld "ArrowRight" s && Qltb (x p) (screen_width - 15)
               then set_x (x p + 5) p else p in
      set_player (Some p) s
  | None => s
  end.

(** [bullet.y += bullet.vy!].  Every object in [bullets] and [bossBullets]
    is built by [createBullet], which sets [vy] (lemma
    [reachable_projectiles]).  For an object without [vy] JavaScript would
    turn [y] into NaN, which the rationals do not have; the embedding leaves
    such an object where it is. *)
Definition advance (bullet : GameObject) : GameObject :=
  match vy bullet with
  | Some v => set_y (y bullet + v) bullet
  | None => bullet
  end.

Definition updateBullets (s : Store) : Store :=
  forEach bullets (fun bullet index s =>
    let bullet := advance bullet in
    let s := set_bullets (<[index := bullet]> (bullets s)) s in
    if Qltb (y bullet) 0
    then set_bullets (delete index (bullets s)) s
    else s) s.

(** The inner loop of the level-one scan, [asteroidIndex] running from
    [rounds - 1] down to [0].  Both loops of the scan start at the last
    index of their array and a removal only shortens the part already
    visited, so every lookup succeeds and the [None] branches are not
    reached (lemmas [asteroidLoop_spec] and [bulletLoop_lengths]). *)
Fixpoint asteroidLoop (bullet : GameObject) (bulletIndex rounds : nat)
    (s : Store) : Store :=
  match rounds with
  | O => s
  | S asteroidIndex =>
      match asteroids s !! asteroidIndex with
      | Some asteroid =>
          if checkCollision bullet asteroid
          then s |> set_bullets (delete bulletIndex (bullets s))
                 |> set_asteroids (delete asteroidIndex (asteroids s))
          else asteroidLoop bullet bulletIndex asteroidIndex s
      | None => s
      end
  end.

Fixpoint bulletLoop (rounds : nat) (s : Store) : Store :=
  match rounds with
  | O => s
  | S bulletIndex =>
      match bullets s !! bulletIndex with
      | Some bullet =>
          bulletLoop bulletIndex
            (asteroidLoop bullet bulletIndex (length (asteroids s)) s)
      | None => s
      end
  end.

(** [scanBullets]: the whole bullet-versus-asteroid scan of level one. *)
Definition scanBullets (s : Store) : Store :=
  bulletLoop (length (bullets s)) s.

Definition noAmmoLeft (s : Store) : bool :=
  (bulletsRemaining s =? 0)%Z && (length (bullets s) =? 0)%nat.

Definition level1Logic (bossTime now : Z) (s : Store) : Flow :=
  if decide (gameState s = level1) then
    let s := scanBullets s in
    if (length (asteroids s) =? 0)%nat then Return (startLevel2 bossTime now s)
    else if noAmmoLeft s then Return (set_gameState lose s)
    else Continue s
  else Continue s.

Definition set_boss_x (v : Q) (b : Boss) : Boss :=
  mkBoss (set_x v b) (hp b) (maxHp b) (lastShot b) (movingRight b) (moveStartTime b).
Definition set_hp (v : Z) (b : Boss) : Boss :=
  mkBoss b v (maxHp b) (lastShot b) (movingRight b) (moveStartTime b).
Definition set_lastShot (v : Z) (b : Boss) : Boss :=
  mkBoss b (hp b) (maxHp b) v (movingRight b) (moveStartTime b).
Definition set_movingRight (v : bool) (b : Boss) : Boss :=
  mkBoss b (hp b) (maxHp b) (lastShot b) v (moveStartTime b).

(** [Math.floor(d / 3000) % 2]: floor division, then JavaScript's
    remainder, which takes the sign of the dividend. *)
Definition movePhase (currentTime : Z) (b : Boss) : Z :=
  Z.rem ((currentTime - moveStartTime b) / 3000) 2.

Definition bossMovement (currentTime : Z) (b : Boss) : Boss :=
  if (movePhase currentTime b =? 1)%Z then
    if movingRight b then
      let b := set_boss_x (x b + 2) b in
      if Qgtb (x b) (screen_width - 40) then set_movingRight false b else b
    else
      let b := set_boss_x (x b - 2) b in
      if Qltb (x b) 40 then set_movingRight true b else b
  else b.

Definition bossShooting (currentTime : Z) (s : Store) : Store :=
  match boss s with
  | Some b =>
      if (currentTime - lastShot b >? 2000)%Z then
        s |> set_bossBullets
               (bossBullets s ++ [createBullet (x b) (y b + 30) false])
          |> set_boss (Some (set_lastShot currentTime b))
      else s
  | None => s
  end.

Definition hitsPlayer (bullet : GameObject) (s : Store) : bool :=
  match player s with
  | Some p => checkCollision bullet p
  | None => false
  end.

(** The [return] inside the callback leaves the callback only: the
    [forEach] goes on with the next boss bullet and the tick with the
    blocks after it. *)
Definition updateBossBullets (s : Store) : Store :=
  forEach bossBullets (fun bullet index s =>
    let bullet := advance bullet in
    let s := set_bossBullets (<[index := bullet]> (bossBullets s)) s in
    let s := if Qgtb (y bullet) screen_height
             then set_bossBullets (delete index (bossBullets s)) s
             else s in
    if hitsPlayer bullet s then set_gameState lose s
    else
      forEach bullets (fun playerBullet playerBulletIndex s =>
        if checkCollision bullet playerBullet
        then s |> set_bossBullets (delete index (bossBullets s))
               |> set_bullets (delete playerBulletIndex (bullets s))
        else s) s) s.

(** The pre-filter of the player-versus-boss test. *)
Definition closeEnough (p : GameObject) (b : Boss) : bool :=
  let distance := (Qabs (x p - x b) + Qabs (y p - y b))%Q in
  Qltb distance 50.

(** The player-versus-boss block, with the pre-filter as a parameter. *)
Definition playerBossCollision (gate : GameObject -> Boss -> bool)
    (s : Store) : Flow :=
  match player s, boss s with
  | Some p, Some b =>
      if gate p b then
        if checkCollision p b then Return (set_gameState lose s)
        else Continue s
      else Continue s
  | _, _ => Continue s
  end.

(** The bullet-versus-boss loop, [bulletIndex] from [rounds - 1] down to
    [0]; it runs inside the level-two block, where the boss exists. *)
Fixpoint bossHitLoop (rounds : nat) (s : Store) : Flow :=
  match rounds with
  | O => Continue s
  | S bulletIndex =>
      match bullets s !! bulletIndex, boss s with
      | Some bullet, Some b =>
          if checkCollision bullet b then
            let b := set_hp (hp b - 1) b in
            let s := s |> set_bullets (delete bulletIndex (bullets s))
                       |> set_boss (Some b) in
            if (hp b =? 0)%Z then Return (set_gameState win s)
            else bossHitLoop bulletIndex s
          else bossHitLoop bulletIndex s
      | _, _ => Return s
      end
  end.

Definition loseCheck (s : Store) : Flow :=
  if noAmmoLeft s then Return (set_gameState lose s) else Continue s.

(** The part of the level-two block that follows the boss's shot. *)
Definition afterShot (gate : GameObject -> Boss -> bool) (s : Store) : Flow :=
  playerBossCollision gate (updateBossBullets s)
    >>> (fun s => bossHitLoop (length (bullets s)) s)
    >>> loseCheck.

Definition level2Logic (gate : GameObject -> Boss -> bool)
    (currentTime : Z) (s : Store) : Flow :=
  match gameState s, boss s with
  | level2, Some b =>
      let s := set_boss (Some (bossMovement currentTime b)) s in
      let s := bossShooting currentTime s in
      afterShot gate s
  | _, _ => Continue s
  end.

(** The store of an active tick once the timer, the player and the
    player bullets have been updated, and (in level one) once the scan
    has run. *)
Definition afterMotion (currentTime : Z) (s : Store) : Store :=
  updateBullets (playerMovement (afterTimer currentTime s)).

Definition afterScan (currentTime : Z) (s : Store) : Store :=
  scanBullets (afterMotion currentTime s).

(** One tick.  [currentTime] is [Date.now()] at the top of [gameLoop];
    [bossTime] and [now] are the readings [createBoss] and [startLevel2]
    take when the tick starts level two. *)
Definition gameLoopWith (gate : GameObject -> Boss -> bool)
    (currentTime bossTime now : Z) (s : Store) : Store :=
  result (checkActive s
            >>> updateTimer currentTime
            >>> (fun s => Continue (updateBullets (playerMovement s)))
            >>> level1Logic bossTime now
            >>> level2Logic gate currentTime).

Definition gameLoop : Z -> Z -> Z -> Store -> Store :=
  gameLoopWith closeEnough.

(** The tick of the specification's design note: the same updater with the
    distance gate dropped, so that the bounding-box test always runs. *)
Definition gameLoop_fullTest : Z -> Z -> Z -> Store -> Store :=
  gameLoopWith (fun _ _ => true).

(** The bullet update as the specification words it: advance every bullet,
    then drop the ones that left the screen. *)
Definition advanceAndCull (offScreen : GameObject -> bool)
    (l : list GameObject) : list GameObject :=
  List.filter (fun b => negb (offScreen b)) (map advance l).

(** ** Sessions: what the input and timer sources can do to the store *)

Inductive Event :=
  | AppInit
  | ClickStart (rnd : nat -> Q) (now : Z)
  | ClickRestart
  | Tick (currentTime bossTime now : Z)
  | KeyDown (code : string)
  | KeyUp (code : string).

Definition handle (e : Event) (s : Store) : Store :=
  match e with
  | AppInit => appInit s
  | ClickStart rnd now => startLevel1 rnd now s
  | ClickRestart => restartGame s
  | Tick currentTime bossTime now => gameLoop currentTime bossTime now s
  | KeyDown code => handleKeyDown code s
  | KeyUp code => handleKeyUp code s
  end.

Definition run (events : list Event) (s : Store) : Store :=
  foldl (fun s e => handle e s) s events.

Inductive reachable : Store -> Prop :=
  | reachable_init : reachable initialStore
  | reachable_step s e : reachable s -> reachable (handle e s).

(** ** Concrete sessions *)

(** [n] ticks, 16 ms apart, the first one 16 ms after [t0]. *)
Definition ticks (t0 : Z) (n : nat) : list Event :=
  map (fun k => let t := (t0 + 16 * Z.of_nat (S k))%Z in Tick t t t) (seq 0 n).

Definition t0 : Z := 1700000000000.

(** Two shots between two ticks, with every asteroid out of the way, then
    80 ticks: both bullets are at the top edge. *)
Definition twoBulletsAtTop : Store :=
  run ([AppInit; ClickStart (fun _ => 0%Q) t0; KeyDown "Space"; KeyDown "Space"]
         ++ ticks t0 80) initialStore.

(** Five asteroids on the player's column and five shots: level one is
    cleared on the 51st tick, and the boss fires on the first tick of
    level two. *)
Definition inLevelTwo : Store :=
  run ([AppInit; ClickStart (fun _ => 1 # 2) t0] ++ repeat (KeyDown "Space") 5
         ++ ticks t0 52) initialStore.

(** ... and the countdown of level two runs out on a late tick. *)
Definition lostLevelTwo : Store :=
  run [Tick (t0 + 100000) (t0 + 100000) (t0 + 100000)] inLevelTwo.

(** Level one, just started, and the same session once its countdown has
    run out. *)
Definition levelOneStarted : Store :=
  run [AppInit; ClickStart (fun _ => 0%Q) t0] initialStore.

Definition levelOneTimedOut : Store :=
  run [Tick (t0 + 61000) (t0 + 61000) (t0 + 61000)] levelOneStarted.

(** Level one with the last bullet about to reach the last asteroid. *)
Definition lastShotStore : Store :=
  {| appRef := true; player := Some createPlayer;
     bullets := [createBullet 640 236 true];
     asteroids := [createAsteroid 640 200];
     boss := None; bossBullets := []; keys := ∅; bulletsRemaining := 0;
     timeRemaining := 30; gameState := level1; lastTime := t0 |}.

(** One bullet inside two stacked asteroids. *)
Definition stackedStore : Store :=
  {| appRef := true; player := Some createPlayer;
     bullets := [createBullet 640 200 true];
     asteroids := [createAsteroid 640 200; createAsteroid 650 210];
     boss := None; bossBullets := []; keys := ∅; bulletsRemaining := 9;
     timeRemaining := 30; gameState := level1; lastTime := t0 |}.


(** The store a successful fire leaves behind, and the store a refused
    one leaves behind. *)
Definition fired (p : GameObject) (s : Store) : Store :=
  s |> set_keys (<["Space" := true]> (keys s))
    |> set_bullets (bullets s ++ [createBullet (x p) (y p - 20) true])
    |> set_bulletsRemaining (bulletsRemaining s - 1).

Definition keyNoted (code : string) (s : Store) : Store :=
  set_keys (<[code := true]> (keys s)) s.

(** Two boss bullets about to leave through the bottom edge. *)
Definition twoBossBulletsAtBottom : Store :=
  {| appRef := true; player := Some createPlayer; bullets := [];
     asteroids := [];
     boss := Some (set_lastShot t0 (createBoss t0));
     bossBullets := [createBullet 640 718 false; createBullet 640 718 false];
     keys := ∅; bulletsRemaining := 10;
     timeRemaining := 30; gameState := level2; lastTime := t0 |}.

(** A store no session produces: the boss sits beside the player. *)
Definition bossBesidePlayer : Store :=
  {| appRef := true; player := Some createPlayer; bullets := [];
     asteroids := [];
     boss := Some (set_lastShot t0 (mkBoss (mkGameObject 692 660 80 60 None None)
                                           4 4 0 true t0));
     bossBullets := []; keys := ∅; bulletsRemaining := 10;
     timeRemaining := 30; gameState := level2; lastTime := t0 |}.

(** Two shots one tick apart, then 79 ticks: the older bullet is at the top
    edge, the younger one 8 below it. *)
Definition bulletsOneTickApart : Store :=
  run ([AppInit; ClickStart (fun _ => 0%Q) t0; KeyDown "Space"] ++ ticks t0 1
         ++ [KeyDown "Space"] ++ ticks (t0 + 16) 79) initialStore.

(** What [updateBullets] does to the list of bullets, read off the
    [forEach]: a bullet that leaves the screen is removed, and the bullet
    that follows it in the list is passed over, neither advanced nor
    tested. *)
Fixpoint cullSkipping (offScreen : GameObject -> bool)
    (l : list GameObject) : list GameObject :=
  match l with
  | [] => []
  | b :: rest =>
      if offScreen (advance b) then
        match rest with
        | [] => []
        | b2 :: rest' => b2 :: cullSkipping offScreen rest'
        end
      else advance b :: cullSkipping offScreen rest
  end.

(** ** Predicates on sessions *)

(** The ship is 30 wide, and its centre is a multiple of 5 between 15 and
    1265: the whole ship is on screen. *)
Definition playerInBounds (o : option GameObject) : Prop :=
  match o with
  | Some p =>
      width p = 30%Q /\
      exists k : Z, (3 <= k <= 253)%Z /\ (x p == inject_Z (5 * k))%Q
  | None => True
  end.

(** The boss is 80 wide, its centre is between 38 and 1242, on the side of
    the turning point that its direction flag tells, and its hit points
    are between 0 and its maximum of 4. *)
Definition bossInBounds (o : option Boss) : Prop :=
  match o with
  | Some b =>
      width b = 80%Q /\ (38 <= x b)%Q /\ (x b <= 1242)%Q /\
      (movingRight b = true -> (x b <= 1240)%Q) /\
      (movingRight b = false -> (40 <= x b)%Q) /\
      maxHp b = 4%Z /\ (0 <= hp b <= 4)%Z
  | None => True
  end.

Definition playerBulletShape (o : GameObject) : Prop :=
  vy o = Some (-8)%Q /\ width o = 6%Q /\ height o = 6%Q /\
  (0 <= y o)%Q /\ (y o <= 640)%Q.

Definition bossBulletShape (o : GameObject) : Prop :=
  vy o = Some 6%Q /\ width o = 6%Q /\ height o = 6%Q /\
  (130 <= y o)%Q /\ (y o <= 720)%Q.

(** Ammunition: what is left plus what is in flight never exceeds 10. *)
Definition ammoOK (s : Store) : Prop :=
  (0 <= bulletsRemaining s)%Z /\
  (Z.of_nat (length (bullets s)) + bulletsRemaining s <= 10)%Z.

(** What each outcome guarantees about the store. *)
Definition outcomeOK (s : Store) : Prop :=
  match gameState s with
  | level1 =>
      appRef s = true /\ is_Some (player s) /\ (0 < timeRemaining s)%Q /\
      asteroids s <> [] /\ noAmmoLeft s = false
  | level2 =>
      appRef s = true /\ is_Some (player s) /\ (0 < timeRemaining s)%Q /\
      (exists b, boss s = Some b /\ (1 <= hp b)%Z) /\ noAmmoLeft s = false
  | win => exists b, boss s = Some b /\ hp b = 0%Z
  | menu | lose => True
  end.

Definition sessionOK (s : Store) : Prop :=
  playerInBounds (player s) /\ bossInBounds (boss s) /\
  Forall playerBulletShape (bullets s) /\
  Forall bossBulletShape (bossBullets s) /\
  ammoOK s /\ (length (asteroids s) <= 5)%nat /\ outcomeOK s.

(** Events of the timer and the keyboard, as opposed to the two buttons. *)
Definition noClick (e : Event) : Prop :=
  match e with
  | ClickStart _ _ | ClickRestart => False
  | _ => True
  end.

Definition gameOver (s : Store) : Prop :=
  gameState s = menu \/ gameState s = win \/ gameState s = lose.

(** The flag [handle] leaves for key [k]. *)
Definition keyAfter (e : Event) (k : string) (before : bool) : bool :=
  match e with
  | KeyDown code => if decide (code = k) then true else before
  | KeyUp code => if decide (code = k) then false else before
  | _ => before
  end.

(** Level two with the boss at its last hit point and a player bullet
    inside it. *)
Definition lastHitStore : Store :=
  {| appRef := true; player := Some createPlayer;
     bullets := [createBullet 640 400 true; createBullet 640 120 true];
     asteroids := [];
     boss := Some (set_hp 1 (set_lastShot t0 (createBoss t0)));
     bossBullets := []; keys := ∅; bulletsRemaining := 3;
     timeRemaining := 30; gameState := level2; lastTime := t0 |}.

(** Level two with a boss bullet about to reach the ship. *)
Definition shipHitStore : Store :=
  {| appRef := true; player := Some createPlayer; bullets := [];
     asteroids := [];
     boss := Some (set_lastShot t0 (createBoss t0));
     bossBullets := [createBullet 640 634 false];
     keys := ∅; bulletsRemaining := 3;
     timeRemaining := 30; gameState := level2; lastTime := t0 |}.

(** One shot fired in level one. *)
Definition oneShotFired : Store :=
  run [KeyDown "Space"] levelOneStarted.

(** [Math.max(0, Math.ceil(gameState.timeRemaining))]: the whole seconds a
    tick that is not out of time hands to the display. *)
Definition shownTime (s : Store) : Z :=
  Z.max 0 (Qceiling (timeRemaining s)).

(** ** Predicates used in the statements *)

Definition sameActors (s s' : Store) : Prop :=
  appRef s' = appRef s /\ player s' = player s /\ boss s' = boss s /\
  keys s' = keys s /\ bulletsRemaining s' = bulletsRemaining s /\
  timeRemaining s' = timeRemaining s /\ lastTime s' = lastTime s.

(** A player bullet in flight has a velocity and is not above the top
    edge; a boss bullet has a velocity and is not below the bottom edge. *)
Definition playerShot (o : GameObject) : Prop :=
  is_Some (vy o) /\ (0 <= y o)%Q.

Definition bossShot (o : GameObject) : Prop :=
  is_Some (vy o) /\ (y o <= screen_height)%Q.

Definition projectilesOK (s : Store) : Prop :=
  Forall playerShot (bullets s) /\ Forall bossShot (bossBullets s).

Definition hitAt (bullet : GameObject) (l : list GameObject) (j : nat) : Prop :=
  exists a, l !! j = Some a /\ checkCollision bullet a = true.

Definition missesFrom (bullet : GameObject) (l : list GameObject) (lo hi : nat) : Prop :=
  forall j a, (lo <= j < hi)%nat -> l !! j = Some a -> checkCollision bullet a = false.

Definition removePair (bulletIndex asteroidIndex : nat) (s : Store) : Store :=
  s |> set_bullets (delete bulletIndex (bullets s))
    |> set_asteroids (delete asteroidIndex (asteroids s)).

(** The boss after a block that can only have changed its hit points. *)
Definition hpOnly (o o' : option Boss) : Prop :=
  match o, o' with
  | Some b, Some b' => b' = set_hp (hp b') b
  | None, None => True
  | _, _ => False
  end.

Definition sameCrew (s s' : Store) : Prop :=
  appRef s' = appRef s /\ player s' = player s /\ hpOnly (boss s) (boss s') /\
  keys s' = keys s /\ bulletsRemaining s' = bulletsRemaining s /\
  timeRemaining s' = timeRemaining s /\ lastTime s' = lastTime s.

Definition playerOK (o : option GameObject) : Prop :=
  match o with
  | Some p => y p = 660%Q /\ height p = 40%Q
  | None => True
  end.

Definition bossOK (o : option Boss) : Prop :=
  match o with
  | Some b => y b = 100%Q /\ height b = 60%Q
  | None => True
  end.

Definition Inv (s : Store) : Prop :=
  (0 <= bulletsRemaining s)%Z /\ playerOK (player s) /\ bossOK (boss s) /\
  projectilesOK s.

Definition active (s : Store) : Prop :=
  appRef s = true /\ (gameState s = level1 \/ gameState s = level2).

(** * Properties *)

(** ** Frames: what the loops over the projectile arrays leave alone *)

Lemma sameActors_refl s : sameActors s s.
Proof. by repeat split. Qed.

Lemma sameActors_trans s1 s2 s3 :
  sameActors s1 s2 -> sameActors s2 s3 -> sameActors s1 s3.
Proof.
  unfold sameActors. intros (?&?&?&?&?&?&?) (?&?&?&?&?&?&?).
  repeat split; congruence.
Qed.

Lemma sameActors_set_bullets l s : sameActors s (set_bullets l s).
Proof. by repeat split. Qed.

Lemma sameActors_set_asteroids l s : sameActors s (set_asteroids l s).
Proof. by repeat split. Qed.

Lemma sameActors_set_bossBullets l s : sameActors s (set_bossBullets l s).
Proof. by repeat split. Qed.

Lemma sameActors_set_gameState g s : sameActors s (set_gameState g s).
Proof. by repeat split. Qed.

(** An invariant of every callback round is an invariant of [forEach]. *)
Section ForEach.

Context {A : Type} (P : Store -> Prop) (arr : Store -> list A).
Context (callback : A -> nat -> Store -> Store).
Hypothesis round_ok :
  forall a i s, P s -> arr s !! i = Some a -> P (callback a i s).

Lemma forEach_from_invariant rounds index s :
  P s -> P (forEach_from arr callback rounds index s).
Proof.
  revert index s. induction rounds as [|rounds IH]; intros index s Hs; simpl.
  - done.
  - apply IH. destruct (arr s !! index) eqn:E; eauto.
Qed.

Lemma forEach_invariant s : P s -> P (forEach arr callback s).
Proof. apply forEach_from_invariant. Qed.

End ForEach.

Create HintDb frames.

#[export] Hint Resolve sameActors_refl sameActors_set_bullets
  sameActors_set_asteroids sameActors_set_bossBullets
  sameActors_set_gameState : frames.

Ltac frame_step :=
  eapply sameActors_trans; [eassumption|]; eauto with frames.

Lemma updateBullets_sameActors s : sameActors s (updateBullets s).
Proof.
  unfold updateBullets.
  apply (forEach_invariant (sameActors s)); [|apply sameActors_refl].
  intros a i s' Hs' _. simpl.
  destruct (Qltb _ _); eapply sameActors_trans; try eassumption; by repeat split.
Qed.

Lemma Qltb_ge a b : Qltb a b = false <-> (b <= a)%Q.
Proof. unfold Qltb. rewrite negb_false_iff. apply Qle_bool_iff. Qed.

Lemma advance_vy o : is_Some (vy o) -> is_Some (vy (advance o)).
Proof. unfold advance. intros [v Hv]. rewrite Hv. simpl. eauto. Qed.

Lemma delete_insert_same {A} (l : list A) i v :
  delete i (<[i := v]> l) = delete i l.
Proof.
  revert i. induction l as [|a l IH]; intros [|i]; simpl; try done.
  by rewrite IH.
Qed.

(** One round of the bullet update keeps the bullets well formed: the
    advanced bullet is written back only when it is still on screen. *)
Lemma Forall_advance_or_drop (P : GameObject -> Prop) (l : list GameObject)
    i a (gone : bool) :
  Forall P l -> l !! i = Some a -> (gone = false -> P (advance a)) ->
  Forall P (if gone then delete i (<[i := advance a]> l)
            else <[i := advance a]> l).
Proof.
  intros Hl Hi Ha. destruct gone.
  - rewrite delete_insert_same. by apply Forall_delete.
  - apply Forall_insert; auto.
Qed.

Lemma updateBullets_projectilesOK s : projectilesOK s -> projectilesOK (updateBullets s).
Proof.
  unfold updateBullets. apply forEach_invariant.
  intros a i s' [Hb Hbb] Hi. cbv zeta.
  pose proof (Forall_advance_or_drop playerShot _ i a
                (Qltb (y (advance a)) 0) Hb Hi) as Hstep.
  destruct (Forall_lookup_1 _ _ _ _ Hb Hi) as [Hv _].
  destruct (Qltb (y (advance a)) 0) eqn:E; (split; simpl; [|done]);
    apply Hstep; try done.
  intros _. split; [by apply advance_vy|by apply Qltb_ge].
Qed.

(** ** The level-one scan *)

Lemma asteroidLoop_spec bullet bulletIndex rounds s :
  (rounds <= length (asteroids s))%nat ->
  (missesFrom bullet (asteroids s) 0 rounds /\
   asteroidLoop bullet bulletIndex rounds s = s) \/
  (exists j, (j < rounds)%nat /\ hitAt bullet (asteroids s) j /\
             missesFrom bullet (asteroids s) (S j) rounds /\
             asteroidLoop bullet bulletIndex rounds s = removePair bulletIndex j s).
Proof.
  induction rounds as [|i IH]; intros Hlen; simpl.
  - left. split; [|done]. intros j a Hj. lia.
  - destruct (lookup_lt_is_Some_2 (asteroids s) i) as [a Ha]; [lia|].
    rewrite Ha. destruct (checkCollision bullet a) eqn:Hc.
    + right. exists i. split_and!; [lia|by exists a| |done].
      intros j a' Hj. lia.
    + destruct IH as [[Hm Heq]|(j & Hj & Hhit & Hm & Heq)]; [lia| |].
      * left. split; [|done]. intros j a' Hj Hl.
        destruct (decide (j = i)) as [->|]; [congruence|].
        apply (Hm j a'); [lia|done].
      * right. exists j. split_and!; [lia|done| |done].
        intros j' a' Hj' Hl.
        destruct (decide (j' = i)) as [->|]; [congruence|].
        apply (Hm j' a'); [lia|done].
Qed.

Lemma asteroidLoop_sameActors bullet bulletIndex rounds s :
  sameActors s (asteroidLoop bullet bulletIndex rounds s).
Proof.
  induction rounds as [|i IH]; simpl; [apply sameActors_refl|].
  destruct (asteroids s !! i); [|apply sameActors_refl].
  destruct (checkCollision _ _); [by repeat split|done].
Qed.

Lemma asteroidLoop_gameState bullet bulletIndex rounds s :
  gameState (asteroidLoop bullet bulletIndex rounds s) = gameState s.
Proof.
  induction rounds as [|i IH]; simpl; [done|].
  destruct (asteroids s !! i); [|done].
  by destruct (checkCollision _ _).
Qed.

Lemma asteroidLoop_bossBullets bullet bulletIndex rounds s :
  bossBullets (asteroidLoop bullet bulletIndex rounds s) = bossBullets s.
Proof.
  induction rounds as [|i IH]; simpl; [done|].
  destruct (asteroids s !! i); [|done].
  by destruct (checkCollision _ _).
Qed.

(** One bullet of the scan: nothing changes, or the bullet and one asteroid go. *)
Lemma asteroidLoop_lengths bullet bulletIndex rounds s :
  (rounds <= length (asteroids s))%nat ->
  (bulletIndex < length (bullets s))%nat ->
  let s' := asteroidLoop bullet bulletIndex rounds s in
  (length (bullets s') = length (bullets s) /\
   length (asteroids s') = length (asteroids s)) \/
  (S (length (bullets s')) = length (bullets s) /\
   S (length (asteroids s')) = length (asteroids s)).
Proof.
  intros Hr Hb.
  destruct (asteroidLoop_spec bullet bulletIndex rounds s Hr)
    as [[_ ->]|(j & Hj & _ & _ & ->)]; simpl; [by left|right].
  rewrite !length_delete; [lia| |]; apply lookup_lt_is_Some_2; lia.
Qed.

Lemma bulletLoop_lengths rounds s :
  (rounds <= length (bullets s))%nat ->
  let s' := bulletLoop rounds s in
  (length (bullets s') <= length (bullets s))%nat /\
  (length (asteroids s') + length (bullets s) =
   length (asteroids s) + length (bullets s'))%nat.
Proof.
  revert s. induction rounds as [|i IH]; intros s Hr; simpl; [lia|].
  destruct (lookup_lt_is_Some_2 (bullets s) i) as [b Hb]; [lia|].
  rewrite Hb.
  pose proof (asteroidLoop_lengths b i (length (asteroids s)) s) as Hstep.
  simpl in Hstep. specialize (Hstep ltac:(lia) ltac:(lia)).
  set (s1 := asteroidLoop b i (length (asteroids s)) s) in *.
  specialize (IH s1 ltac:(lia)). simpl in IH. lia.
Qed.

Lemma bulletLoop_sameActors rounds s : sameActors s (bulletLoop rounds s).
Proof.
  revert s. induction rounds as [|i IH]; intros s; simpl; [apply sameActors_refl|].
  destruct (bullets s !! i); [|apply sameActors_refl].
  eapply sameActors_trans; [apply asteroidLoop_sameActors|apply IH].
Qed.

Lemma bulletLoop_gameState rounds s : gameState (bulletLoop rounds s) = gameState s.
Proof.
  revert s. induction rounds as [|i IH]; intros s; simpl; [done|].
  destruct (bullets s !! i); [|done].
  by rewrite IH, asteroidLoop_gameState.
Qed.

Lemma asteroidLoop_projectilesOK bullet bulletIndex rounds s :
  projectilesOK s -> projectilesOK (asteroidLoop bullet bulletIndex rounds s).
Proof.
  intros [Hb Hbb]. induction rounds as [|i IH]; simpl; [done|].
  destruct (asteroids s !! i); [|done].
  destruct (checkCollision _ _); [|done].
  split; simpl; auto using Forall_delete.
Qed.

Lemma bulletLoop_projectilesOK rounds s :
  projectilesOK s -> projectilesOK (bulletLoop rounds s).
Proof.
  revert s. induction rounds as [|i IH]; intros s Hs; simpl; [done|].
  destruct (bullets s !! i); [|done].
  apply IH, asteroidLoop_projectilesOK, Hs.
Qed.

(** ** The level-two blocks *)

Lemma hpOnly_refl o : hpOnly o o.
Proof. destruct o as [[]|]; done. Qed.

Lemma hpOnly_trans o1 o2 o3 : hpOnly o1 o2 -> hpOnly o2 o3 -> hpOnly o1 o3.
Proof.
  destruct o1 as [b1|], o2 as [b2|], o3 as [b3|]; simpl; try done.
  intros -> ->. done.
Qed.

Lemma sameActors_sameCrew s s' : sameActors s s' -> sameCrew s s'.
Proof.
  intros (?&?&Hb&?&?&?&?). split_and!; try done. rewrite Hb. apply hpOnly_refl.
Qed.

Lemma sameCrew_refl s : sameCrew s s.
Proof. apply sameActors_sameCrew, sameActors_refl. Qed.

Lemma sameCrew_trans s1 s2 s3 : sameCrew s1 s2 -> sameCrew s2 s3 -> sameCrew s1 s3.
Proof.
  intros (?&?&?&?&?&?&?) (?&?&?&?&?&?&?).
  split_and!; try congruence. eapply hpOnly_trans; eauto.
Qed.

Lemma updateBossBullets_sameActors s : sameActors s (updateBossBullets s).
Proof.
  unfold updateBossBullets.
  apply (forEach_invariant (sameActors s)); [|apply sameActors_refl].
  intros a i s1 Hs1 _. cbv zeta.
  set (s2 := set_bossBullets _ s1).
  assert (Hs2 : sameActors s s2) by (subst s2; frame_step).
  clearbody s2.
  set (s3 := if Qgtb _ _ then _ else s2).
  assert (Hs3 : sameActors s s3) by (subst s3; destruct (Qgtb _ _); [frame_step|done]).
  clearbody s3.
  destruct (hitsPlayer _ s3); [frame_step|].
  apply (forEach_invariant (sameActors s)); [|done].
  intros pb j s4 Hs4 _. destruct (checkCollision _ _); [|done].
  eapply sameActors_trans; [eassumption|]. by repeat split.
Qed.

Lemma updateBossBullets_projectilesOK s :
  projectilesOK s -> projectilesOK (updateBossBullets s).
Proof.
  unfold updateBossBullets. apply forEach_invariant.
  intros a i s1 [Hb Hbb] Hi. cbv zeta.
  pose proof (Forall_advance_or_drop bossShot _ i a
                (Qgtb (y (advance a)) screen_height) Hbb Hi) as Hstep.
  destruct (Forall_lookup_1 _ _ _ _ Hbb Hi) as [Hv _].
  set (s3 := if Qgtb _ _ then _ else _).
  assert (Hs3 : projectilesOK s3).
  { subst s3. destruct (Qgtb (y (advance a)) screen_height) eqn:E;
      (split; simpl; [done|]); apply Hstep; try done.
    intros _. split; [by apply advance_vy|by apply Qltb_ge]. }
  clearbody s3.
  destruct (hitsPlayer _ s3); [done|].
  apply forEach_invariant; [|done].
  intros pb j s4 [? ?] _. destruct (checkCollision _ _); [|done].
  split; simpl; auto using Forall_delete.
Qed.

Lemma bossHitLoop_sameCrew rounds s : sameCrew s (result (bossHitLoop rounds s)).
Proof.
  revert s. induction rounds as [|i IH]; intros s; simpl; [apply sameCrew_refl|].
  destruct (bullets s !! i) as [bullet|]; [|apply sameCrew_refl].
  destruct (boss s) as [b|] eqn:Hboss; [|apply sameCrew_refl].
  destruct (checkCollision bullet b); [|apply IH].
  set (s1 := set_boss _ _).
  assert (Hs1 : sameCrew s s1).
  { subst s1. split_and!; try done. rewrite Hboss. by destruct b. }
  clearbody s1.
  destruct (_ =? 0)%Z; simpl.
  - eapply sameCrew_trans; [exact Hs1|]. apply sameActors_sameCrew. eauto with frames.
  - eapply sameCrew_trans; [exact Hs1|apply IH].
Qed.

Lemma bossHitLoop_projectilesOK rounds s :
  projectilesOK s -> projectilesOK (result (bossHitLoop rounds s)).
Proof.
  revert s. induction rounds as [|i IH]; intros s Hs; simpl; [done|].
  destruct (bullets s !! i) as [bullet|]; [|done].
  destruct (boss s) as [b|]; [|done].
  destruct (checkCollision bullet b); [|by apply IH].
  assert (projectilesOK (set_boss (Some (set_hp (hp b - 1) b))
                           (set_bullets (delete i (bullets s)) s))).
  { destruct Hs. split; simpl; auto using Forall_delete. }
  destruct (_ =? 0)%Z; simpl; [done|by apply IH].
Qed.

Lemma playerBossCollision_sameActors gate s :
  sameActors s (result (playerBossCollision gate s)).
Proof.
  unfold playerBossCollision.
  destruct (player s), (boss s); simpl; auto with frames.
  destruct (gate _ _); simpl; auto with frames.
  destruct (checkCollision _ _); simpl; auto with frames.
Qed.

Lemma playerBossCollision_projectiles gate s :
  bullets (result (playerBossCollision gate s)) = bullets s /\
  bossBullets (result (playerBossCollision gate s)) = bossBullets s.
Proof.
  unfold playerBossCollision.
  destruct (player s), (boss s); simpl; auto.
  destruct (gate _ _); simpl; auto.
  destruct (checkCollision _ _); simpl; auto.
Qed.

Lemma loseCheck_sameActors s : sameActors s (result (loseCheck s)).
Proof. unfold loseCheck. destruct (noAmmoLeft s); simpl; auto with frames. Qed.

Lemma loseCheck_projectiles s :
  bullets (result (loseCheck s)) = bullets s /\
  bossBullets (result (loseCheck s)) = bossBullets s.
Proof. unfold loseCheck. by destruct (noAmmoLeft s). Qed.

Lemma result_andThen_holds (P : Store -> Prop) f k :
  P (result f) -> (forall s, P s -> P (result (k s))) -> P (result (f >>> k)).
Proof. destruct f; simpl; auto. Qed.

Lemma afterShot_sameCrew gate s : sameCrew s (result (afterShot gate s)).
Proof.
  unfold afterShot.
  apply (result_andThen_holds (sameCrew s)).
  - apply (result_andThen_holds (sameCrew s)).
    + eapply sameCrew_trans; apply sameActors_sameCrew;
        [apply updateBossBullets_sameActors|apply playerBossCollision_sameActors].
    + intros s1 Hs1. eapply sameCrew_trans; [exact Hs1|apply bossHitLoop_sameCrew].
  - intros s1 Hs1. eapply sameCrew_trans; [exact Hs1|].
    apply sameActors_sameCrew, loseCheck_sameActors.
Qed.

Lemma afterShot_projectilesOK gate s :
  projectilesOK s -> projectilesOK (result (afterShot gate s)).
Proof.
  intros Hs. unfold afterShot.
  apply (result_andThen_holds projectilesOK).
  - apply (result_andThen_holds projectilesOK).
    + apply updateBossBullets_projectilesOK in Hs.
      destruct (playerBossCollision_projectiles gate (updateBossBullets s)) as [E1 E2].
      unfold projectilesOK. by rewrite E1, E2.
    + intros s1 Hs1. by apply bossHitLoop_projectilesOK.
  - intros s1 Hs1. destruct (loseCheck_projectiles s1) as [E1 E2].
    unfold projectilesOK. by rewrite E1, E2.
Qed.

Lemma level2Logic_unfold gate currentTime s b :
  gameState s = level2 -> boss s = Some b ->
  level2Logic gate currentTime s =
  afterShot gate (bossShooting currentTime
                    (set_boss (Some (bossMovement currentTime b)) s)).
Proof. intros Hg Hb. unfold level2Logic. by rewrite Hg, Hb. Qed.

Ltac halves :=
  unfold left, right, top, bottom, Qdiv in *;
  change (/ 2)%Q with (1 # 2)%Q in *.

Lemma Qltb_lt a b : Qltb a b = true <-> (a < b)%Q.
Proof.
  unfold Qltb. rewrite negb_true_iff, <- not_true_iff_false, Qle_bool_iff.
  split; [apply Qnot_le_lt | apply Qlt_not_le].
Qed.

Lemma checkCollision_true a b :
  checkCollision a b = true <->
  (left a < right b /\ left b < right a /\ top a < bottom b /\ top b < bottom a)%Q.
Proof.
  unfold checkCollision, Qgtb, left, right, top, bottom.
  rewrite !andb_true_iff, !Qltb_lt. tauto.
Qed.

(** ** One tick, block by block *)

Lemma updateBullets_gameState s : gameState (updateBullets s) = gameState s.
Proof.
  unfold updateBullets.
  apply (forEach_invariant (fun s' => gameState s' = gameState s)); [|done].
  intros a i s' Hs' _. cbv zeta. by destruct (Qltb _ _).
Qed.

Lemma afterMotion_gameState currentTime s :
  gameState (afterMotion currentTime s) = gameState s.
Proof.
  unfold afterMotion. rewrite updateBullets_gameState.
  unfold playerMovement. by destruct (player _).
Qed.

Lemma gameLoopWith_inactive gate currentTime bossTime now s :
  ~ active s -> gameLoopWith gate currentTime bossTime now s = s.
Proof.
  unfold active, gameLoopWith, checkActive. intros H.
  destruct (appRef s); simpl; [|done].
  destruct (gameState s); simpl; try done; exfalso; apply H; auto.
Qed.

Lemma gameLoopWith_timeout gate currentTime bossTime now s :
  active s -> (timeRemaining (afterTimer currentTime s) <= 0)%Q ->
  gameLoopWith gate currentTime bossTime now s =
  set_gameState lose (afterTimer currentTime s).
Proof.
  unfold active, gameLoopWith, checkActive, updateTimer.
  intros [-> Hg] Ht%Qle_bool_iff. cbv zeta.
  destruct Hg as [-> | ->]; cbn [negb andThen]; by rewrite Ht.
Qed.

Lemma gameLoopWith_level1 gate currentTime bossTime now s :
  appRef s = true -> gameState s = level1 ->
  ~ (timeRemaining (afterTimer currentTime s) <= 0)%Q ->
  gameLoopWith gate currentTime bossTime now s =
  result (level1Logic bossTime now (afterMotion currentTime s)).
Proof.
  unfold gameLoopWith, checkActive, updateTimer.
  intros -> Hg Ht. rewrite <- Qle_bool_iff in Ht.
  apply not_true_is_false in Ht. rewrite Hg. cbv zeta. cbn [negb andThen].
  rewrite Ht. cbn [andThen]. fold (afterMotion currentTime s).
  destruct (level1Logic _ _ _) as [s1|s1] eqn:E; simpl; [done|].
  unfold level1Logic in E.
  rewrite decide_True in E by (by rewrite afterMotion_gameState). cbv zeta in E.
  destruct (_ =? _)%nat; [done|].
  destruct (noAmmoLeft _); [done|]. injection E as <-.
  unfold level2Logic, scanBullets.
  by rewrite bulletLoop_gameState, afterMotion_gameState, Hg.
Qed.

Lemma gameLoopWith_level2 gate currentTime bossTime now s :
  appRef s = true -> gameState s = level2 ->
  ~ (timeRemaining (afterTimer currentTime s) <= 0)%Q ->
  gameLoopWith gate currentTime bossTime now s =
  result (level2Logic gate currentTime (afterMotion currentTime s)).
Proof.
  unfold gameLoopWith, checkActive, updateTimer.
  intros -> Hg Ht. rewrite <- Qle_bool_iff in Ht.
  apply not_true_is_false in Ht. rewrite Hg. cbv zeta. cbn [negb andThen].
  rewrite Ht. cbn [andThen]. fold (afterMotion currentTime s).
  unfold level1Logic.
  rewrite decide_False by (rewrite afterMotion_gameState, Hg; done). done.
Qed.

Lemma afterMotion_appRef currentTime s : appRef (afterMotion currentTime s) = appRef s.
Proof.
  unfold afterMotion.
  destruct (updateBullets_sameActors (playerMovement (afterTimer currentTime s)))
    as (-> & _).
  unfold playerMovement. by destruct (player _).
Qed.

Lemma afterScan_appRef currentTime s : appRef (afterScan currentTime s) = appRef s.
Proof.
  unfold afterScan, scanBullets.
  destruct (bulletLoop_sameActors (length (bullets (afterMotion currentTime s)))
              (afterMotion currentTime s)) as (-> & _).
  apply afterMotion_appRef.
Qed.

Lemma level1Logic_result bossTime now s :
  gameState s = level1 ->
  result (level1Logic bossTime now s) =
  let mid := scanBullets s in
  match asteroids mid with
  | [] => startLevel2 bossTime now mid
  | _ :: _ => if noAmmoLeft mid then set_gameState lose mid else mid
  end.
Proof.
  intros Hg. unfold level1Logic. rewrite decide_True by done. cbv zeta.
  destruct (asteroids (scanBullets s)); simpl; [done|].
  by destruct (noAmmoLeft _).
Qed.

(** ** Invariants of a session *)

Lemma Inv_sameCrew s s' : sameCrew s s' -> projectilesOK s' -> Inv s -> Inv s'.
Proof.
  intros (_ & Hp & Hb & _ & Hn & _) Hproj (Hn0 & Hp0 & Hb0 & _).
  split_and!; [by rewrite Hn|by rewrite Hp| |done].
  unfold hpOnly in Hb. destruct (boss s) as [b|], (boss s') as [b'|]; try done.
  rewrite Hb. exact Hb0.
Qed.

Lemma Inv_sameActors s s' : sameActors s s' -> projectilesOK s' -> Inv s -> Inv s'.
Proof. intros H. apply Inv_sameCrew, sameActors_sameCrew, H. Qed.

Lemma Inv_startLevel1 rnd now s : Inv s -> Inv (startLevel1 rnd now s).
Proof.
  intros (Hn & Hp & Hb & Hbb1 & Hbb2). unfold startLevel1.
  destruct (appRef s); simpl; [|by split_and!].
  split_and!; simpl; try done; by split.
Qed.

Lemma Inv_startLevel2 bossTime now s : Inv s -> Inv (startLevel2 bossTime now s).
Proof.
  intros (Hn & Hp & Hb & Hbb1 & Hbb2). unfold startLevel2.
  destruct (appRef s); simpl; [|by split_and!].
  split_and!; simpl; try done; by split.
Qed.

Lemma Inv_restartGame s : Inv s -> Inv (restartGame s).
Proof.
  intros (Hn & Hp & Hb & Hbb1 & Hbb2). unfold restartGame.
  destruct (appRef s); simpl; [|by split_and!].
  split_and!; simpl; try done; by split.
Qed.

Lemma Inv_handleKeyDown code s : Inv s -> Inv (handleKeyDown code s).
Proof.
  intros (Hn & Hp & Hb & Hbb1 & Hbb2). unfold handleKeyDown. cbv zeta.
  destruct (bool_decide _); simpl; [|by split_and!].
  destruct (0 <? bulletsRemaining s)%Z eqn:Hpos; simpl; [|by split_and!].
  destruct (player s) as [p|] eqn:Hpl; simpl.
  - apply Z.ltb_lt in Hpos.
    split_and!; simpl; [lia|by rewrite Hpl|done|].
    split; simpl; [|done]. apply Forall_app. split; [done|].
    apply Forall_singleton. destruct Hp as [Hy _].
    split; simpl; [by eexists|]. rewrite Hy. by vm_compute.
  - split_and!; simpl; try done. by rewrite Hpl.
Qed.

Lemma Inv_handleKeyUp code s : Inv s -> Inv (handleKeyUp code s).
Proof. intros (Hn & Hp & Hb & Hbb1 & Hbb2). by split_and!. Qed.

Lemma Inv_afterMotion currentTime s : Inv s -> Inv (afterMotion currentTime s).
Proof.
  intros (Hn & Hp & Hb & Hproj). unfold afterMotion.
  set (s1 := playerMovement _).
  assert (Hs1 : Inv s1).
  { subst s1. unfold playerMovement, afterTimer. simpl.
    destruct (player s) as [p|] eqn:Hpl; [|split_and!; simpl; try done; by rewrite Hpl].
    split_and!; try done.
    cbn [player set_player playerOK].
    destruct (_ && _), (_ && _); simpl; done. }
  clearbody s1.
  eapply Inv_sameActors; [apply updateBullets_sameActors| |done].
  apply updateBullets_projectilesOK, Hs1.
Qed.

Lemma Inv_set_gameState g s : Inv s -> Inv (set_gameState g s).
Proof. intros (Hn & Hp & Hb & Hbb1 & Hbb2). by split_and!. Qed.

Lemma Inv_scanBullets s : Inv s -> Inv (scanBullets s).
Proof.
  intros Hs. unfold scanBullets.
  eapply Inv_sameActors; [apply bulletLoop_sameActors| |done].
  apply bulletLoop_projectilesOK, Hs.
Qed.

Lemma bossMovement_body currentTime b :
  y (bossMovement currentTime b) = y b /\
  height (bossMovement currentTime b) = height b /\
  lastShot (bossMovement currentTime b) = lastShot b /\
  hp (bossMovement currentTime b) = hp b.
Proof.
  unfold bossMovement. destruct (_ =? 1)%Z; [|done].
  destruct (movingRight b); cbv zeta.
  - by destruct (Qgtb _ _).
  - by destruct (Qltb _ _).
Qed.

Lemma Inv_beforeShot currentTime s b :
  boss s = Some b -> Inv s ->
  Inv (bossShooting currentTime (set_boss (Some (bossMovement currentTime b)) s)).
Proof.
  intros Hboss (Hn & Hp & Hb & Hbb1 & Hbb2). rewrite Hboss in Hb.
  destruct (bossMovement_body currentTime b) as (Ey & Eh & _).
  unfold bossShooting. simpl. destruct (_ >? 2000)%Z.
  - split_and!; simpl; try done; [by rewrite Ey, Eh|].
    split; simpl; [done|]. apply Forall_app. split; [done|].
    apply Forall_singleton. destruct Hb as [Hy _].
    split; simpl; [by eexists|]. rewrite Ey, Hy. by vm_compute.
  - split_and!; simpl; try done. by rewrite Ey, Eh.
Qed.

Lemma Inv_level2Logic gate currentTime s :
  Inv s -> Inv (result (level2Logic gate currentTime s)).
Proof.
  intros Hs. unfold level2Logic.
  destruct (gameState s); try done.
  destruct (boss s) as [b|] eqn:Hboss; [|done].
  fold (afterShot gate (bossShooting currentTime
          (set_boss (Some (bossMovement currentTime b)) s))).
  pose proof (Inv_beforeShot currentTime s b Hboss Hs) as H1.
  eapply Inv_sameCrew; [apply afterShot_sameCrew| |exact H1].
  apply afterShot_projectilesOK, H1.
Qed.

Lemma Inv_afterTimer currentTime s : Inv s -> Inv (afterTimer currentTime s).
Proof. intros (Hn & Hp & Hb & Hbb1 & Hbb2). by split_and!. Qed.

Lemma Inv_gameLoopWith gate currentTime bossTime now s :
  Inv s -> Inv (gameLoopWith gate currentTime bossTime now s).
Proof.
  intros Hs.
  destruct (decide (active s)) as [Hact|Hact];
    [|by rewrite gameLoopWith_inactive].
  destruct (Qlt_le_dec 0 (timeRemaining (afterTimer currentTime s))) as [Ht|Ht];
    [|rewrite gameLoopWith_timeout by done;
      by apply Inv_set_gameState, Inv_afterTimer].
  apply Qlt_not_le in Ht. destruct Hact as [Happ [Hg|Hg]].
  - rewrite gameLoopWith_level1, level1Logic_result by
      (try done; by rewrite afterMotion_gameState).
    pose proof (Inv_scanBullets _ (Inv_afterMotion currentTime s Hs)) as Hmid.
    cbv zeta. destruct (asteroids _); [by apply Inv_startLevel2|].
    destruct (noAmmoLeft _); [by apply Inv_set_gameState|done].
  - rewrite gameLoopWith_level2 by done.
    by apply Inv_level2Logic, Inv_afterMotion.
Qed.

Lemma Inv_handle e s : Inv s -> Inv (handle e s).
Proof.
  destruct e; simpl.
  - intros (Hn & Hp & Hb & Hbb1 & Hbb2). by split_and!.
  - apply Inv_startLevel1.
  - apply Inv_restartGame.
  - apply Inv_gameLoopWith.
  - apply Inv_handleKeyDown.
  - apply Inv_handleKeyUp.
Qed.

Lemma reachable_Inv s : reachable s -> Inv s.
Proof.
  induction 1 as [|s e _ IH]; [|by apply Inv_handle].
  split_and!; simpl; try done; by split.
Qed.

Lemma reachable_run events s : reachable s -> reachable (run events s).
Proof.
  revert s. induction events as [|e events IH]; intros s Hs; [done|].
  apply IH. by constructor.
Qed.

(** In a session every bullet in a collection has its velocity and is on
    screen. *)
Lemma reachable_projectiles s :
  reachable s ->
  Forall playerShot (bullets s) /\ Forall bossShot (bossBullets s).
Proof. intros H. apply (reachable_Inv s H). Qed.

(** ** The player and the boss never touch *)

Lemma player_boss_apart p b :
  playerOK (Some p) -> bossOK (Some b) -> checkCollision p b = false.
Proof.
  intros [Hy Hh] [Hy' Hh']. apply not_true_iff_false.
  intros (_ & _ & H & _)%checkCollision_true.
  unfold top, bottom in H. rewrite Hy, Hh, Hy', Hh' in H. by vm_compute in H.
Qed.

Lemma playerBossCollision_Inv gate s :
  Inv s -> playerBossCollision gate s = Continue s.
Proof.
  intros (_ & Hp & Hb & _). unfold playerBossCollision.
  destruct (player s) as [p|]; [|done]. destruct (boss s) as [b|]; [|done].
  rewrite (player_boss_apart p b Hp Hb). by destruct (gate p b).
Qed.

Lemma level2Logic_gate gate1 gate2 currentTime s :
  Inv s -> level2Logic gate1 currentTime s = level2Logic gate2 currentTime s.
Proof.
  intros Hs. unfold level2Logic.
  destruct (gameState s); try done.
  destruct (boss s) as [b|] eqn:Hboss; [|done]. cbv zeta.
  pose proof (Inv_beforeShot currentTime s b Hboss Hs) as H1.
  set (s1 := bossShooting _ _) in *. clearbody s1.
  assert (H2 : Inv (updateBossBullets s1)).
  { eapply Inv_sameActors; [apply updateBossBullets_sameActors| |done].
    apply updateBossBullets_projectilesOK, H1. }
  unfold afterShot. by rewrite !playerBossCollision_Inv.
Qed.

(** ** The player entity outlives the outcome *)

Lemma afterMotion_player currentTime s :
  is_Some (player s) -> is_Some (player (afterMotion currentTime s)).
Proof.
  intros [p Hp]. unfold afterMotion.
  destruct (updateBullets_sameActors (playerMovement (afterTimer currentTime s)))
    as (_ & -> & _).
  unfold playerMovement, afterTimer. simpl. rewrite Hp. simpl. eauto.
Qed.

Lemma gameLoopWith_player gate currentTime bossTime now s :
  is_Some (player s) ->
  is_Some (player (gameLoopWith gate currentTime bossTime now s)).
Proof.
  intros Hs.
  destruct (decide (active s)) as [Hact|Hact];
    [|by rewrite gameLoopWith_inactive].
  destruct (Qlt_le_dec 0 (timeRemaining (afterTimer currentTime s))) as [Ht|Ht];
    [|by rewrite gameLoopWith_timeout].
  apply Qlt_not_le in Ht. destruct Hact as [Happ [Hg|Hg]].
  - rewrite gameLoopWith_level1, level1Logic_result by
      (try done; by rewrite afterMotion_gameState).
    cbv zeta. fold (afterScan currentTime s).
    assert (Hmid : is_Some (player (afterScan currentTime s))).
    { unfold afterScan, scanBullets.
      destruct (bulletLoop_sameActors
                  (length (bullets (afterMotion currentTime s)))
                  (afterMotion currentTime s)) as (_ & -> & _).
      by apply afterMotion_player. }
    destruct (asteroids _).
    + unfold startLevel2. rewrite afterScan_appRef, Happ. simpl. eauto.
    + by destruct (noAmmoLeft _).
  - rewrite gameLoopWith_level2 by done.
    pose proof (afterMotion_player currentTime s Hs) as Hm.
    set (m := afterMotion currentTime s) in *. clearbody m.
    unfold level2Logic. destruct (gameState m); try done.
    destruct (boss m) as [b|]; [|done].
    fold (afterShot gate (bossShooting currentTime
            (set_boss (Some (bossMovement currentTime b)) m))).
    destruct (afterShot_sameCrew gate (bossShooting currentTime
            (set_boss (Some (bossMovement currentTime b)) m))) as (_ & -> & _).
    unfold bossShooting. simpl. by destruct (_ >? 2000)%Z.
Qed.

(** In a session the player entity exists in every outcome but the menu. *)
Lemma reachable_player s :
  reachable s -> gameState s = menu \/ is_Some (player s).
Proof.
  induction 1 as [|s e _ IH]; [by left|].
  destruct e; simpl.
  - done.
  - unfold startLevel1. destruct (appRef s); simpl; [right; eauto|done].
  - unfold restartGame. destruct (appRef s); simpl; [by left|done].
  - destruct IH as [Hm|Hp].
    + left. unfold gameLoop. rewrite gameLoopWith_inactive; [done|].
      intros [_ [H|H]]; congruence.
    + right. by apply gameLoopWith_player.
  - unfold handleKeyDown. cbv zeta.
    destruct (_ && _); simpl; [|done].
    destruct IH as [Hm|[p Hp]]; [left|right].
    + by destruct (player s).
    + rewrite Hp. simpl. eauto.
  - done.
Qed.






(** C2, as stated, fails: a session that lost level two still holds the
    boss and its bullet after [startLevel1]; and before the application is
    attached [startLevel1] does nothing. *)
Lemma C2_boss_survives_startLevel1 :
  reachable lostLevelTwo /\ gameState lostLevelTwo = lose /\
  (let s' := startLevel1 (fun _ => 0%Q) (t0 + 200000) lostLevelTwo in
   gameState s' = level1 /\ boss s' <> None /\ bossBullets s' <> []) /\
  gameState (startLevel1 (fun _ => 0%Q) t0 initialStore) = menu.
Proof.
  split; [apply reachable_run, reachable_run, reachable_init|].
  by vm_compute.
Qed.

(** C2, amended.  Once the application is attached, [startLevel1] empties
    the player bullets, replaces the asteroids by five fresh ones, creates
    the player, sets 10 bullets, 60 seconds and outcome [level1]; the boss
    and the boss bullets are left as they were. *)
Theorem C2_startLevel1_resets (rnd : nat -> Q) (now : Z) (s : Store) :
  appRef s = true ->
  let s' := startLevel1 rnd now s in
  bullets s' = [] /\
  asteroids s' =
    map (fun i => createAsteroid (rnd (2 * i)%nat * (screen_width - 60) + 30)
                                 (rnd (2 * i + 1)%nat * 300 + 50))
        (seq 0 5) /\
  length (asteroids s') = 5%nat /\
  player s' = Some createPlayer /\
  bulletsRemaining s' = 10%Z /\ timeRemaining s' = 60%Q /\
  gameState s' = level1 /\
  boss s' = boss s /\ bossBullets s' = bossBullets s.
Proof. intros Happ. unfold startLevel1. rewrite Happ. by split_and!. Qed.

Lemma C2_startLevel1_resets_witness :
  gameState (startLevel1 (fun _ => 0%Q) t0 lostLevelTwo) = level1 /\
  boss (startLevel1 (fun _ => 0%Q) t0 lostLevelTwo) = boss lostLevelTwo.
Proof.
  assert (Happ : appRef lostLevelTwo = true) by (by vm_compute).
  pose proof (C2_startLevel1_resets (fun _ => 0%Q) t0 lostLevelTwo Happ) as H.
  cbv zeta in H. tauto.
Defined.

(** C3.  In an active level, a tick whose elapsed time brings the
    countdown to zero or below only charges the timer and sets the outcome
    to [lose]: no entity moves, no collision is resolved, no level starts. *)
Theorem C3_timeout_preempts (currentTime bossTime now : Z) (s : Store) :
  active s ->
  (timeRemaining s - inject_Z (currentTime - lastTime s) / 1000 <= 0)%Q ->
  let s' := gameLoop currentTime bossTime now s in
  s' = set_gameState lose (afterTimer currentTime s) /\
  gameState s' = lose /\
  player s' = player s /\ bullets s' = bullets s /\
  asteroids s' = asteroids s /\ boss s' = boss s /\
  bossBullets s' = bossBullets s /\ bulletsRemaining s' = bulletsRemaining s.
Proof.
  intros Hact Ht. cbv zeta. unfold gameLoop.
  rewrite gameLoopWith_timeout by done. by split_and!.
Qed.

Lemma C3_timeout_preempts_witness :
  gameState (gameLoop (t0 + 30000) 0 0 lastShotStore) = lose /\
  asteroids (gameLoop (t0 + 30000) 0 0 lastShotStore) = asteroids lastShotStore.
Proof.
  assert (Hact : active lastShotStore) by (split; [done|by left]).
  assert (Ht : (timeRemaining lastShotStore
                - inject_Z (t0 + 30000 - lastTime lastShotStore) / 1000 <= 0)%Q)
    by (by vm_compute).
  pose proof (C3_timeout_preempts (t0 + 30000) 0 0 lastShotStore Hact Ht) as H.
  cbv zeta in H. tauto.
Defined.

(** C4.  In a level-one tick that is not out of time: if the scan leaves
    no asteroid, the tick is [startLevel2] on the scanned store and ends in
    [level2], whatever the ammunition; otherwise the outcome becomes [lose]
    exactly when no bullet is left to fire or in flight. *)
Theorem C4_cleared_field_starts_level2 (currentTime bossTime now : Z) (s : Store) :
  appRef s = true -> gameState s = level1 ->
  ~ (timeRemaining (afterTimer currentTime s) <= 0)%Q ->
  let mid := afterScan currentTime s in
  let s' := gameLoop currentTime bossTime now s in
  (asteroids mid = [] ->
     s' = startLevel2 bossTime now mid /\ gameState s' = level2 /\
     boss s' = Some (createBoss bossTime)) /\
  (asteroids mid = [] -> noAmmoLeft mid = true -> gameState s' = level2) /\
  (asteroids mid <> [] ->
     s' = if noAmmoLeft mid then set_gameState lose mid else mid).
Proof.
  intros Happ Hg Ht. cbv zeta. unfold gameLoop.
  rewrite gameLoopWith_level1, level1Logic_result by
    (try done; by rewrite afterMotion_gameState).
  cbv zeta. fold (afterScan currentTime s).
  assert (Hstart : forall m, appRef m = true ->
            gameState (startLevel2 bossTime now m) = level2 /\
            boss (startLevel2 bossTime now m) = Some (createBoss bossTime)).
  { intros m Hm. unfold startLevel2. by rewrite Hm. }
  pose proof (afterScan_appRef currentTime s) as Hmid. rewrite Happ in Hmid.
  destruct (asteroids (afterScan currentTime s)) eqn:Hast.
  - split_and!; [intros _; split; [done|by apply Hstart]
                |intros _ _; by apply Hstart|done].
  - split_and!; done.
Qed.

Lemma C4_cleared_field_starts_level2_witness :
  noAmmoLeft (afterScan (t0 + 16) lastShotStore) = true /\
  gameState (gameLoop (t0 + 16) (t0 + 16) (t0 + 16) lastShotStore) = level2.
Proof.
  assert (Ht : ~ (timeRemaining (afterTimer (t0 + 16) lastShotStore) <= 0)%Q)
    by (by vm_compute).
  assert (Hast : asteroids (afterScan (t0 + 16) lastShotStore) = [])
    by (by vm_compute).
  assert (Hammo : noAmmoLeft (afterScan (t0 + 16) lastShotStore) = true)
    by (by vm_compute).
  split; [exact Hammo|].
  exact (proj1 (proj2 (C4_cleared_field_starts_level2 (t0 + 16) (t0 + 16) (t0 + 16)
                         lastShotStore eq_refl eq_refl Ht)) Hast Hammo).
Defined.

(** ** Firing *)

Lemma handleKeyDown_fires s p :
  player s = Some p -> (0 < bulletsRemaining s)%Z ->
  handleKeyDown "Space" s = fired p s.
Proof.
  intros Hp Hn%Z.ltb_lt. unfold handleKeyDown, fired. simpl.
  by rewrite Hn, Hp.
Qed.

Lemma handleKeyDown_refused s :
  (bulletsRemaining s <= 0)%Z \/ player s = None ->
  handleKeyDown "Space" s = keyNoted "Space" s.
Proof.
  unfold handleKeyDown, keyNoted. simpl. intros [Hn|Hp].
  - assert ((0 <? bulletsRemaining s)%Z = false) as -> by (apply Z.ltb_ge; lia).
    done.
  - rewrite Hp. by destruct (0 <? _)%Z.
Qed.

(** C5, as stated, fails: in the menu there are bullets left but no
    player, and the fire key spawns nothing and costs nothing. *)
Lemma C5_fire_without_player :
  reachable initialStore /\ (0 < bulletsRemaining initialStore)%Z /\
  bullets (handleKeyDown "Space" initialStore) = [] /\
  bulletsRemaining (handleKeyDown "Space" initialStore) = 10%Z.
Proof. split; [constructor|by vm_compute]. Qed.

(** C5, amended.  With a player entity and bullets left, the fire key
    appends exactly one bullet 20 above the player and takes one from
    [bulletsRemaining]; with no bullets left, or with no player entity, it
    only records the key; and [bulletsRemaining] is never negative in a
    session, before or after a fire event. *)
Theorem C5_fire_spawns_one_or_nothing (s : Store) :
  (forall p, player s = Some p -> (0 < bulletsRemaining s)%Z ->
     handleKeyDown "Space" s = fired p s /\
     bullets (handleKeyDown "Space" s) =
       bullets s ++ [createBullet (x p) (y p - 20) true] /\
     bulletsRemaining (handleKeyDown "Space" s) = (bulletsRemaining s - 1)%Z) /\
  ((bulletsRemaining s <= 0)%Z \/ player s = None ->
     handleKeyDown "Space" s = keyNoted "Space" s /\
     bullets (handleKeyDown "Space" s) = bullets s /\
     asteroids (handleKeyDown "Space" s) = asteroids s /\
     bossBullets (handleKeyDown "Space" s) = bossBullets s /\
     bulletsRemaining (handleKeyDown "Space" s) = bulletsRemaining s) /\
  (reachable s ->
     (0 <= bulletsRemaining s)%Z /\
     (0 <= bulletsRemaining (handleKeyDown "Space" s))%Z).
Proof.
  split_and!.
  - intros p Hp Hn. by rewrite (handleKeyDown_fires s p Hp Hn).
  - intros H. by rewrite (handleKeyDown_refused s H).
  - intros Hs. split; [apply (reachable_Inv s Hs)|].
    apply (reachable_Inv _ (reachable_step s (KeyDown "Space") Hs)).
Qed.

Lemma C5_fire_spawns_one_or_nothing_witness :
  bulletsRemaining (handleKeyDown "Space" levelOneStarted) = 9%Z /\
  (0 <= bulletsRemaining levelOneStarted)%Z.
Proof.
  destruct (C5_fire_spawns_one_or_nothing levelOneStarted) as (Hfire & _ & Hreach).
  split.
  - destruct (Hfire createPlayer) as (_ & _ & ->); by vm_compute.
  - apply Hreach. apply reachable_run, reachable_init.
Defined.

(** ** The boss's shot *)

Lemma updateBullets_bossBullets s : bossBullets (updateBullets s) = bossBullets s.
Proof.
  unfold updateBullets.
  apply (forEach_invariant (fun s' => bossBullets s' = bossBullets s)); [|done].
  intros a i s' Hs' _. cbv zeta. by destruct (Qltb _ _).
Qed.

Lemma afterMotion_boss currentTime s :
  boss (afterMotion currentTime s) = boss s /\
  bossBullets (afterMotion currentTime s) = bossBullets s.
Proof.
  unfold afterMotion. rewrite updateBullets_bossBullets.
  destruct (updateBullets_sameActors (playerMovement (afterTimer currentTime s)))
    as (_ & _ & -> & _).
  unfold playerMovement, afterTimer. simpl. by destruct (player s).
Qed.

Lemma afterShot_lastShot gate s b :
  boss s = Some b ->
  exists b', boss (result (afterShot gate s)) = Some b' /\ lastShot b' = lastShot b.
Proof.
  intros Hb. destruct (afterShot_sameCrew gate s) as (_ & _ & H & _).
  rewrite Hb in H. unfold hpOnly in H.
  destruct (boss (result (afterShot gate s))) as [b'|]; [|done].
  exists b'. split; [done|]. by rewrite H.
Qed.

(** C6, as stated, fails: exactly 2000 ms after the last shot the boss
    does not fire. *)
Lemma C6_no_shot_at_2000ms :
  reachable inLevelTwo /\
  gameState inLevelTwo = level2 /\
  lastShot <$> boss inLevelTwo = Some 1700000000832%Z /\
  length (bossBullets inLevelTwo) = 1%nat /\
  let now := (1700000000832 + 2000)%Z in
  let s' := gameLoop now now now inLevelTwo in
  gameState s' = level2 /\
  length (bossBullets s') = 1%nat /\
  lastShot <$> boss s' = Some 1700000000832%Z.
Proof.
  split; [apply reachable_run, reachable_init|by vm_compute].
Qed.

(** C6, amended.  In a level-two tick that is not out of time, the boss
    fires when strictly more than 2000 ms have passed since its last shot:
    exactly one bullet is appended to the boss bullets, at the boss's
    position after this tick's movement, 30 lower, and the tick ends with
    [lastShot] equal to the current time.  At 2000 ms or less nothing is
    spawned and [lastShot] keeps its value. *)
Theorem C6_boss_fires_after_2000ms (currentTime bossTime now : Z) (s : Store) (b : Boss) :
  appRef s = true -> gameState s = level2 -> boss s = Some b ->
  ~ (timeRemaining (afterTimer currentTime s) <= 0)%Q ->
  let m := afterMotion currentTime s in
  let b1 := bossMovement currentTime b in
  let shot := bossShooting currentTime (set_boss (Some b1) m) in
  let s' := gameLoop currentTime bossTime now s in
  s' = result (afterShot closeEnough shot) /\
  ((currentTime - lastShot b > 2000)%Z ->
     bossBullets shot = bossBullets s ++ [createBullet (x b1) (y b + 30) false] /\
     boss shot = Some (set_lastShot currentTime b1) /\
     exists b', boss s' = Some b' /\ lastShot b' = currentTime) /\
  ((currentTime - lastShot b <= 2000)%Z ->
     shot = set_boss (Some b1) m /\
     bossBullets shot = bossBullets s /\
     exists b', boss s' = Some b' /\ lastShot b' = lastShot b).
Proof.
  intros Happ Hg Hb Ht. cbv zeta. unfold gameLoop.
  destruct (afterMotion_boss currentTime s) as [Hmb Hmbb].
  rewrite Hb in Hmb.
  rewrite gameLoopWith_level2 by done.
  rewrite (level2Logic_unfold _ _ _ b) by
    (by rewrite ?afterMotion_gameState).
  destruct (bossMovement_body currentTime b) as (Ey & _ & El & _).
  split; [done|]. unfold bossShooting. simpl. rewrite El. split.
  - intros Hgt. apply Z.gtb_gt in Hgt. rewrite Hgt. simpl.
    rewrite Hmbb, Ey. split_and!; [done|done|].
    apply (afterShot_lastShot closeEnough _ (set_lastShot currentTime
             (bossMovement currentTime b))). done.
  - intros Hle. assert ((currentTime - lastShot b >? 2000)%Z = false) as ->
      by (rewrite Z.gtb_ltb; apply Z.ltb_ge; lia).
    split_and!; [done|done|].
    destruct (afterShot_lastShot closeEnough
                (set_boss (Some (bossMovement currentTime b))
                          (afterMotion currentTime s))
                (bossMovement currentTime b) eq_refl) as (b' & Hb' & Hl).
    exists b'. split; [done|congruence].
Qed.

Lemma C6_boss_fires_after_2000ms_witness :
  exists b', boss (gameLoop 1700000002833 0 0 inLevelTwo) = Some b' /\
             lastShot b' = 1700000002833%Z.
Proof.
  assert (Ht : ~ (timeRemaining (afterTimer 1700000002833 inLevelTwo) <= 0)%Q)
    by (by vm_compute).
  assert (Hb : boss inLevelTwo =
               Some (set_lastShot 1700000000832 (createBoss 1700000000816)))
    by (by vm_compute).
  apply (C6_boss_fires_after_2000ms 1700000002833 0 0 inLevelTwo _
           eq_refl eq_refl Hb Ht).
  by vm_compute.
Defined.

(** ** Bullets leaving the screen *)

(** C7.  The code misses a bullet: in a session with two shots between two
    ticks, both bullets stand at the top edge after 80 ticks.  Advancing
    both and dropping those above the edge leaves none; [updateBullets],
    and with it the next tick, removes the first and skips the second,
    which stays in the collection where it was. *)
Theorem C7_second_exiting_bullet_is_skipped :
  reachable twoBulletsAtTop /\
  gameState twoBulletsAtTop = level1 /\
  y <$> bullets twoBulletsAtTop = [0%Q; 0%Q] /\
  vy <$> bullets twoBulletsAtTop = [Some (-8)%Q; Some (-8)%Q] /\
  advanceAndCull (fun b => Qltb (y b) 0) (bullets twoBulletsAtTop) = [] /\
  y <$> bullets (updateBullets twoBulletsAtTop) = [0%Q] /\
  let t := (t0 + 16 * 81)%Z in
  y <$> bullets (gameLoop t t t twoBulletsAtTop) = [0%Q].
Proof.
  split; [apply reachable_run, reachable_init|by vm_compute].
Qed.

(** The loop over the boss bullets has the same shape and skips in the
    same way. *)
Lemma updateBossBullets_skips_after_removal :
  advanceAndCull (fun b => Qgtb (y b) screen_height)
                 (bossBullets twoBossBulletsAtBottom) = [] /\
  y <$> bossBullets (updateBossBullets twoBossBulletsAtBottom) = [718%Q] /\
  let t := (t0 + 16)%Z in
  y <$> bossBullets (gameLoop t t t twoBossBulletsAtBottom) = [718%Q].
Proof. by vm_compute. Qed.

(** Past the end of the array every round of [forEach] is a no-op. *)
Lemma forEach_from_past_end {A} (arr : Store -> list A) callback rounds index s :
  (length (arr s) <= index)%nat ->
  forEach_from arr callback rounds index s = s.
Proof.
  revert index. induction rounds as [|rounds IH]; intros index Hlen; simpl.
  - done.
  - rewrite lookup_ge_None_2 by done. apply IH. lia.
Qed.

Lemma forEach_from_cullSkipping rounds (l1 l2 : list GameObject) (s : Store) :
  bullets s = l1 ++ l2 -> (length l2 <= rounds)%nat ->
  bullets (forEach_from bullets (fun bullet index s =>
             let bullet := advance bullet in
             let s := set_bullets (<[index := bullet]> (bullets s)) s in
             if Qltb (y bullet) 0
             then set_bullets (delete index (bullets s)) s
             else s) rounds (length l1) s)
  = l1 ++ cullSkipping (fun b => Qltb (y b) 0) l2.
Proof.
  revert l1 l2 s. induction rounds as [|rounds IH]; intros l1 l2 s Hs Hlen.
  - destruct l2; [simpl; by rewrite Hs|simpl in Hlen; lia].
  - destruct l2 as [|b rest].
    + rewrite forEach_from_past_end; [by rewrite Hs|].
      rewrite Hs, length_app. simpl. lia.
    + simpl in Hlen. cbn [forEach_from].
      rewrite Hs, list_lookup_middle by done. cbv zeta.
      cbn [bullets set_bullets cullSkipping].
      rewrite insert_app_r_alt, Nat.sub_diag by done. cbn [insert list_insert].
      destruct (Qltb (y (advance b)) 0) eqn:Hexit.
      * cbn [bullets set_bullets].
        rewrite delete_middle.
        destruct rest as [|b2 rest'].
        -- rewrite forEach_from_past_end; [done|].
           cbn [bullets set_bullets]. rewrite length_app. simpl. lia.
        -- replace (S (length l1)) with (length (l1 ++ [b2]))
             by (rewrite length_app; simpl; lia).
           rewrite (IH (l1 ++ [b2]) rest');
             [by rewrite <- app_assoc|simpl; by rewrite <- app_assoc
             |simpl in Hlen; lia].
      * replace (S (length l1)) with (length (l1 ++ [advance b]))
          by (rewrite length_app; simpl; lia).
        rewrite (IH (l1 ++ [advance b]) rest);
          [by rewrite <- app_assoc|simpl; by rewrite <- app_assoc|lia].
Qed.

(** [updateBullets] on the list of bullets is [cullSkipping]. *)
Lemma updateBullets_cullSkipping s :
  bullets (updateBullets s) = cullSkipping (fun b => Qltb (y b) 0) (bullets s).
Proof.
  apply (forEach_from_cullSkipping (length (bullets s)) [] (bullets s) s);
    [done|lia].
Qed.

Lemma advanceAndCull_no_exit offScreen (l : list GameObject) :
  Forall (fun b => offScreen (advance b) = false) l ->
  advanceAndCull offScreen l = map advance l /\
  cullSkipping offScreen l = map advance l.
Proof.
  unfold advanceAndCull. induction 1 as [|b l Hb _ [IH1 IH2]]; simpl; [done|].
  by rewrite Hb, IH1, IH2.
Qed.

(** When no bullet leaves the screen on a tick, [updateBullets] does what
    the specification says: it advances every bullet. *)
Lemma updateBullets_no_exit s :
  Forall (fun b => Qltb (y (advance b)) 0 = false) (bullets s) ->
  bullets (updateBullets s) = advanceAndCull (fun b => Qltb (y b) 0) (bullets s).
Proof.
  intros Hall. rewrite updateBullets_cullSkipping.
  destruct (advanceAndCull_no_exit (fun b => Qltb (y b) 0) _ Hall) as [-> ->].
  done.
Qed.

(** A bullet that follows a removed one is not advanced on that tick. *)
Lemma updateBullets_stalls_next_bullet :
  reachable bulletsOneTickApart /\
  y <$> bullets bulletsOneTickApart = [0%Q; 8%Q] /\
  y <$> advanceAndCull (fun b => Qltb (y b) 0) (bullets bulletsOneTickApart)
    = [0%Q] /\
  y <$> bullets (updateBullets bulletsOneTickApart) = [8%Q].
Proof.
  split; [apply reachable_run, reachable_init|by vm_compute].
Qed.

(** ** The distance gate *)

Lemma gameLoopWith_gate gate1 gate2 currentTime bossTime now s :
  Inv s ->
  gameLoopWith gate1 currentTime bossTime now s =
  gameLoopWith gate2 currentTime bossTime now s.
Proof.
  intros Hs.
  destruct (decide (active s)) as [Hact|Hact];
    [|by rewrite !gameLoopWith_inactive].
  destruct (Qlt_le_dec 0 (timeRemaining (afterTimer currentTime s))) as [Ht|Ht];
    [|by rewrite !gameLoopWith_timeout].
  apply Qlt_not_le in Ht. destruct Hact as [Happ [Hg|Hg]].
  - by rewrite !gameLoopWith_level1.
  - rewrite !gameLoopWith_level2 by done.
    by rewrite (level2Logic_gate gate1 gate2) by (by apply Inv_afterMotion).
Qed.

(** C8.  In every store a session can reach, the tick with the distance
    gate and the tick that always runs the bounding-box test return the
    same store (outcome included), for every clock reading. *)
Theorem C8_distance_gate_is_neutral (s : Store) (currentTime bossTime now : Z) :
  reachable s ->
  gameLoop currentTime bossTime now s =
  gameLoop_fullTest currentTime bossTime now s.
Proof.
  intros Hs. apply gameLoopWith_gate, reachable_Inv, Hs.
Qed.

Lemma C8_distance_gate_is_neutral_witness :
  gameLoop (t0 + 16 * 53) 0 0 inLevelTwo =
  gameLoop_fullTest (t0 + 16 * 53) 0 0 inLevelTwo.
Proof.
  apply (C8_distance_gate_is_neutral inLevelTwo).
  apply reachable_run, reachable_init.
Defined.

(** Outside sessions the gate does matter: with the boss beside the
    player the boxes overlap while the centres are 52 apart, and only the
    ungated tick ends the game. *)
Lemma distance_gate_matters_off_session :
  gameState (gameLoop (t0 + 16) 0 0 bossBesidePlayer) = level2 /\
  gameState (gameLoop_fullTest (t0 + 16) 0 0 bossBesidePlayer) = lose.
Proof. by vm_compute. Qed.

(** ** One asteroid per bullet *)

(** C9.  For the bullet at [bulletIndex], the inner loop of the scan
    either finds no overlapping asteroid and changes nothing, or stops at
    the overlapping asteroid of highest index [j]: the store loses that
    bullet and that asteroid and nothing else, whatever lies below [j].
    The scan runs this once per bullet, from the last bullet to the first,
    and removes as many asteroids as bullets. *)
Theorem C9_bullet_removes_at_most_one_asteroid
    (s : Store) (bulletIndex : nat) (bullet : GameObject) :
  bullets s !! bulletIndex = Some bullet ->
  let n := length (asteroids s) in
  let s' := asteroidLoop bullet bulletIndex n s in
  ((missesFrom bullet (asteroids s) 0 n /\ s' = s) \/
   (exists j, (j < n)%nat /\ hitAt bullet (asteroids s) j /\
      missesFrom bullet (asteroids s) (S j) n /\
      s' = removePair bulletIndex j s /\
      bullets s' = delete bulletIndex (bullets s) /\
      asteroids s' = delete j (asteroids s) /\
      S (length (bullets s')) = length (bullets s) /\
      S (length (asteroids s')) = length (asteroids s))) /\
  (forall k, (k < bulletIndex)%nat -> bullets s' !! k = bullets s !! k) /\
  bulletLoop (S bulletIndex) s = bulletLoop bulletIndex s' /\
  (length (bullets (scanBullets s)) <= length (bullets s))%nat /\
  (length (asteroids (scanBullets s)) + length (bullets s) =
   length (asteroids s) + length (bullets (scanBullets s)))%nat.
Proof.
  intros Hb. cbv zeta. split_and!.
  - destruct (asteroidLoop_spec bullet bulletIndex (length (asteroids s)) s)
      as [[Hm Heq]|(j & Hj & Hhit & Hm & Heq)]; [done|by left|right].
    exists j. rewrite Heq. split_and!; try done; simpl.
    + rewrite length_delete; [|by rewrite Hb].
      apply lookup_lt_Some in Hb. lia.
    + rewrite length_delete; [lia|by apply lookup_lt_is_Some_2].
  - intros k Hk.
    destruct (asteroidLoop_spec bullet bulletIndex (length (asteroids s)) s)
      as [[_ ->]|(j & _ & _ & _ & ->)]; [done|done|].
    simpl. by rewrite list_lookup_delete_lt.
  - simpl. by rewrite Hb.
  - apply (bulletLoop_lengths (length (bullets s)) s). done.
  - apply (bulletLoop_lengths (length (bullets s)) s). done.
Qed.

Lemma C9_bullet_removes_at_most_one_asteroid_witness :
  length (asteroids (scanBullets stackedStore)) = 1%nat /\
  length (bullets (scanBullets stackedStore)) = 0%nat.
Proof.
  pose proof (C9_bullet_removes_at_most_one_asteroid stackedStore 0
                (createBullet 640 200 true) eq_refl) as (_ & _ & _ & Hle & Hsum).
  change (length (bullets stackedStore)) with 1%nat in *.
  change (length (asteroids stackedStore)) with 2%nat in *.
  assert (Hnone : length (bullets (scanBullets stackedStore)) = 0%nat)
    by (by vm_compute).
  split; [lia|exact Hnone].
Defined.

(** ** Firing after the game is over *)

(** C10.  [handleKeyDown] does not look at the outcome.  In a session a
    tick never drops the player entity, so a store whose outcome is [win]
    or [lose] still holds it; with bullets left, the fire key there appends
    a bullet 20 above the player and takes one from [bulletsRemaining],
    and the outcome stays what it was. *)
Theorem C10_fire_after_game_over (s : Store) :
  reachable s ->
  (forall currentTime bossTime now,
     is_Some (player s) ->
     is_Some (player (gameLoop currentTime bossTime now s))) /\
  (gameState s = win \/ gameState s = lose ->
   (0 < bulletsRemaining s)%Z ->
   exists p, player s = Some p /\
     handleKeyDown "Space" s = fired p s /\
     bullets (handleKeyDown "Space" s) =
       bullets s ++ [createBullet (x p) (y p - 20) true] /\
     bulletsRemaining (handleKeyDown "Space" s) = (bulletsRemaining s - 1)%Z /\
     gameState (handleKeyDown "Space" s) = gameState s).
Proof.
  intros Hs. split.
  - intros currentTime bossTime now. apply gameLoopWith_player.
  - intros Hg Hn.
    destruct (reachable_player s Hs) as [Hm|[p Hp]];
      [destruct Hg; congruence|].
    exists p. split; [done|].
    by rewrite (handleKeyDown_fires _ p Hp Hn).
Qed.

Lemma C10_fire_after_game_over_witness :
  gameState levelOneTimedOut = lose /\
  exists p, player levelOneTimedOut = Some p /\
    gameState (handleKeyDown "Space" levelOneTimedOut) = lose /\
    bulletsRemaining (handleKeyDown "Space" levelOneTimedOut) = 9%Z.
Proof.
  assert (Hr : reachable levelOneTimedOut)
    by (apply reachable_run, reachable_run, reachable_init).
  assert (Hg : gameState levelOneTimedOut = lose) by (by vm_compute).
  assert (Hn : (0 < bulletsRemaining levelOneTimedOut)%Z) by (by vm_compute).
  destruct (proj2 (C10_fire_after_game_over levelOneTimedOut Hr) (or_intror Hg) Hn)
    as (p & Hpl & _ & _ & Hbr & Hgs).
  split; [exact Hg|]. exists p. split; [done|]. rewrite Hgs, Hbr.
  by vm_compute.
Defined.

(** ** What a tick can do to the collections *)

Lemma Forall_sublist {A} (P : A -> Prop) (l1 l2 : list A) :
  l1 `sublist_of` l2 -> Forall P l2 -> Forall P l1.
Proof.
  rewrite !Forall_forall. intros Hsub Hall a Ha.
  apply Hall. by eapply elem_of_sublist.
Qed.

Lemma updateBullets_asteroids s : asteroids (updateBullets s) = asteroids s.
Proof.
  unfold updateBullets.
  apply (forEach_invariant (fun s' => asteroids s' = asteroids s)); [|done].
  intros a i s' Hs' _. cbv zeta. by destruct (Qltb _ _).
Qed.

Lemma updateBullets_length s :
  (length (bullets (updateBullets s)) <= length (bullets s))%nat.
Proof.
  unfold updateBullets.
  apply (forEach_invariant
           (fun s' => (length (bullets s') <= length (bullets s))%nat)); [|done].
  intros a i s' Hs' _. cbv zeta. destruct (Qltb _ _); simpl.
  - etrans; [apply sublist_length, sublist_delete|]. by rewrite length_insert.
  - by rewrite length_insert.
Qed.

Lemma asteroidLoop_sublist bullet bulletIndex rounds s :
  bullets (asteroidLoop bullet bulletIndex rounds s) `sublist_of` bullets s /\
  asteroids (asteroidLoop bullet bulletIndex rounds s) `sublist_of` asteroids s.
Proof.
  induction rounds as [|i IH]; simpl; [done|].
  destruct (asteroids s !! i); [|done].
  destruct (checkCollision _ _); [|done].
  simpl. split; apply sublist_delete.
Qed.

Lemma bulletLoop_sublist rounds s :
  bullets (bulletLoop rounds s) `sublist_of` bullets s /\
  asteroids (bulletLoop rounds s) `sublist_of` asteroids s.
Proof.
  revert s. induction rounds as [|i IH]; intros s; simpl; [done|].
  destruct (bullets s !! i) as [b|]; [|done].
  destruct (asteroidLoop_sublist b i (length (asteroids s)) s) as [H1 H2].
  destruct (IH (asteroidLoop b i (length (asteroids s)) s)) as [H3 H4].
  split; etrans; eauto.
Qed.

Lemma bulletLoop_bossBullets rounds s :
  bossBullets (bulletLoop rounds s) = bossBullets s.
Proof.
  revert s. induction rounds as [|i IH]; intros s; simpl; [done|].
  destruct (bullets s !! i); [|done].
  by rewrite IH, asteroidLoop_bossBullets.
Qed.

(** The loop over the boss bullets: it can shorten both bullet arrays and
    it can set the outcome to [lose]; it does nothing else to the store. *)
Lemma updateBossBullets_summary s :
  let s' := updateBossBullets s in
  asteroids s' = asteroids s /\
  bullets s' `sublist_of` bullets s /\
  (length (bossBullets s') <= length (bossBullets s))%nat /\
  (gameState s' = gameState s \/ gameState s' = lose).
Proof.
  cbv zeta. unfold updateBossBullets.
  apply (forEach_invariant (fun s' =>
    asteroids s' = asteroids s /\
    bullets s' `sublist_of` bullets s /\
    (length (bossBullets s') <= length (bossBullets s))%nat /\
    (gameState s' = gameState s \/ gameState s' = lose))); [|split_and!; auto].
  intros a i s1 (Ha & Hb & Hl & Hg) _. cbv zeta.
  set (s3 := if Qgtb _ _ then _ else _).
  assert (Hs3 : asteroids s3 = asteroids s /\
                bullets s3 `sublist_of` bullets s /\
                (length (bossBullets s3) <= length (bossBullets s))%nat /\
                (gameState s3 = gameState s \/ gameState s3 = lose)).
  { subst s3. destruct (Qgtb _ _); simpl; split_and!; try done.
    - etrans; [apply sublist_length, sublist_delete|]. by rewrite length_insert.
    - by rewrite length_insert. }
  clearbody s3. destruct (hitsPlayer _ s3).
  - destruct Hs3 as (?&?&?&?). simpl. split_and!; auto.
  - apply forEach_invariant; [|done].
    intros pb j s4 (Ha4 & Hb4 & Hl4 & Hg4) _.
    destruct (checkCollision _ _); [|done]. simpl. split_and!; try done.
    + etrans; [apply sublist_delete|done].
    + etrans; [apply sublist_length, sublist_delete|done].
Qed.

Lemma bossHitLoop_summary rounds s :
  let s' := result (bossHitLoop rounds s) in
  asteroids s' = asteroids s /\ bossBullets s' = bossBullets s /\
  bullets s' `sublist_of` bullets s.
Proof.
  cbv zeta. revert s. induction rounds as [|i IH]; intros s; simpl; [done|].
  destruct (bullets s !! i) as [bullet|]; [|done].
  destruct (boss s) as [b|]; [|done].
  destruct (checkCollision bullet b); [|apply IH].
  destruct (_ =? 0)%Z; simpl.
  - split_and!; try done. apply sublist_delete.
  - destruct (IH (set_boss (Some (set_hp (hp b - 1) b))
                    (set_bullets (delete i (bullets s)) s))) as (-> & -> & H).
    split_and!; try done. etrans; [exact H|apply sublist_delete].
Qed.

Lemma playerBossCollision_cases gate s :
  playerBossCollision gate s = Continue s \/
  playerBossCollision gate s = Return (set_gameState lose s).
Proof.
  unfold playerBossCollision.
  destruct (player s), (boss s); auto.
  destruct (gate _ _); auto. destruct (checkCollision _ _); auto.
Qed.

Lemma afterShot_summary gate s :
  let s' := result (afterShot gate s) in
  asteroids s' = asteroids s /\
  bullets s' `sublist_of` bullets s /\
  (length (bossBullets s') <= length (bossBullets s))%nat.
Proof.
  cbv zeta. unfold afterShot.
  destruct (updateBossBullets_summary s) as (Ha & Hb & Hl & _).
  set (s1 := updateBossBullets s) in *. clearbody s1.
  assert (Htail : forall s2, asteroids s2 = asteroids s1 ->
            bullets s2 `sublist_of` bullets s1 ->
            bossBullets s2 = bossBullets s1 ->
            let s' := result (Continue s2
                        >>> (fun s => bossHitLoop (length (bullets s)) s)
                        >>> loseCheck) in
            asteroids s' = asteroids s /\ bullets s' `sublist_of` bullets s /\
            (length (bossBullets s') <= length (bossBullets s))%nat).
  { intros s2 E1 E2 E3. cbv zeta. cbn [andThen].
    destruct (bossHitLoop_summary (length (bullets s2)) s2) as (F1 & F2 & F3).
    destruct (bossHitLoop _ s2) as [r|r]; cbn [andThen result] in *.
    - rewrite F1, F2, E1, E3. split_and!; try done. by repeat (etrans; [eassumption|]).
    - unfold loseCheck. destruct (noAmmoLeft r); simpl;
        rewrite F1, F2, E1, E3; split_and!; try done;
        by repeat (etrans; [eassumption|]). }
  destruct (playerBossCollision_cases gate s1) as [-> | ->].
  - by apply Htail.
  - simpl. by split_and!.
Qed.

(** A tick never adds an asteroid or a player bullet, and adds at most one
    boss bullet; it leaves the key flags and [appRef] alone. *)
Lemma gameLoopWith_collections gate currentTime bossTime now s :
  let s' := gameLoopWith gate currentTime bossTime now s in
  asteroids s' `sublist_of` asteroids s /\
  (length (bullets s') <= length (bullets s))%nat /\
  (length (bossBullets s') <= S (length (bossBullets s)))%nat.
Proof.
  cbv zeta.
  destruct (decide (active s)) as [Hact|Hact];
    [|rewrite gameLoopWith_inactive by done; split_and!; [done|lia|lia]].
  destruct (Qlt_le_dec 0 (timeRemaining (afterTimer currentTime s))) as [Ht|Ht];
    [|rewrite gameLoopWith_timeout by done; simpl; split_and!; [done|lia|lia]].
  apply Qlt_not_le in Ht.
  assert (Hm : asteroids (afterMotion currentTime s) = asteroids s /\
               (length (bullets (afterMotion currentTime s))
                  <= length (bullets s))%nat /\
               bossBullets (afterMotion currentTime s) = bossBullets s).
  { unfold afterMotion. rewrite updateBullets_asteroids, updateBullets_bossBullets.
    split_and!.
    - unfold playerMovement, afterTimer. simpl. by destruct (player s).
    - etrans; [apply updateBullets_length|].
      unfold playerMovement, afterTimer. simpl. by destruct (player s).
    - unfold playerMovement, afterTimer. simpl. by destruct (player s). }
  destruct Hm as (Hma & Hmb & Hmbb). destruct Hact as [Happ [Hg|Hg]].
  - rewrite gameLoopWith_level1, level1Logic_result by
      (try done; by rewrite afterMotion_gameState).
    cbv zeta. unfold scanBullets.
    destruct (bulletLoop_sublist (length (bullets (afterMotion currentTime s)))
                (afterMotion currentTime s)) as [Hb Ha].
    pose proof (bulletLoop_bossBullets
                  (length (bullets (afterMotion currentTime s)))
                  (afterMotion currentTime s)) as Hbb.
    set (mid := bulletLoop _ _) in *. clearbody mid.
    rewrite Hma in Ha. apply sublist_length in Hb.
    destruct (asteroids mid) eqn:Hast.
    + unfold startLevel2. destruct (appRef mid); simpl.
      * rewrite Hast. split_and!; [apply sublist_nil_l|lia|lia].
      * rewrite Hast, Hbb, Hmbb. split_and!; [apply sublist_nil_l|lia|lia].
    + destruct (noAmmoLeft mid); simpl;
        rewrite Hbb, Hmbb, Hast; split_and!; (done || lia).
  - rewrite gameLoopWith_level2 by done.
    set (m := afterMotion currentTime s) in *. clearbody m.
    unfold level2Logic. destruct (gameState m);
      try (simpl; rewrite Hma, Hmbb; split_and!; (done || lia)).
    destruct (boss m) as [b|] eqn:Hb;
      [|simpl; rewrite Hma, Hmbb; split_and!; (done || lia)].
    cbv zeta.
    destruct (afterShot_summary gate (bossShooting currentTime
                (set_boss (Some (bossMovement currentTime b)) m)))
      as (Ha & Hbu & Hbb).
    rewrite Ha. apply sublist_length in Hbu.
    revert Hbu Hbb. unfold bossShooting. simpl.
    destruct (_ >? 2000)%Z; simpl; rewrite ?length_app, ?Hmbb; simpl;
      intros Hbu Hbb; rewrite Hma; split_and!; (done || lia).
Qed.

(** ** The ship and the boss stay on screen *)

Lemma playerMovement_bounds s :
  playerInBounds (player s) -> playerInBounds (player (playerMovement s)).
Proof.
  unfold playerMovement. destruct (player s) as [p|] eqn:Hp; [|by rewrite Hp].
  intros (Hw & k & Hk & Hx). cbn [player set_player playerInBounds].
  set (p1 := if keyHeld "ArrowLeft" s && Qgtb (x p) 15
             then set_x (x p - 5) p else p).
  assert (H1 : width p1 = 30%Q /\
               exists k1 : Z, (3 <= k1 <= 253)%Z /\ (x p1 == inject_Z (5 * k1))%Q).
  { subst p1. destruct (keyHeld "ArrowLeft" s); simpl; [|by eauto].
    destruct (Qgtb (x p) 15) eqn:Hgt; simpl; [|by eauto].
    split; [done|]. exists (k - 1)%Z.
    apply Qltb_lt in Hgt. rewrite Hx in Hgt.
    change 15%Q with (inject_Z 15) in Hgt. rewrite <- Zlt_Qlt in Hgt.
    split; [lia|]. rewrite Hx. unfold Qeq, Qminus, Qplus, Qopp, inject_Z. simpl. lia. }
  clearbody p1. destruct H1 as (Hw1 & k1 & Hk1 & Hx1).
  destruct (keyHeld "ArrowRight" s); simpl; [|by eauto].
  destruct (Qltb (x p1) (screen_width - 15)) eqn:Hlt; simpl; [|by eauto].
  split; [done|]. exists (k1 + 1)%Z.
  apply Qltb_lt in Hlt. rewrite Hx1 in Hlt.
  assert (Hedge : (screen_width - 15 == inject_Z 1265)%Q) by reflexivity.
  rewrite Hedge, <- Zlt_Qlt in Hlt.
  split; [lia|]. rewrite Hx1. unfold Qeq, Qplus, inject_Z. simpl. lia.
Qed.

Lemma Qgtb_le a b : Qgtb a b = false <-> (a <= b)%Q.
Proof. unfold Qgtb. apply Qltb_ge. Qed.

Lemma Qgtb_gt a b : Qgtb a b = true <-> (b < a)%Q.
Proof. unfold Qgtb. apply Qltb_lt. Qed.

Lemma bossMovement_bounds currentTime b :
  bossInBounds (Some b) -> bossInBounds (Some (bossMovement currentTime b)).
Proof.
  intros (Hw & Hlo & Hhi & Hr & Hl & Hm & Hhp).
  unfold bossMovement, bossInBounds.
  destruct (_ =? 1)%Z; [|split_and!; (done || lia)].
  destruct (movingRight b) eqn:Hdir; cbv zeta.
  - specialize (Hr eq_refl).
    destruct (Qgtb _ _) eqn:Hc; simpl in *;
      [apply Qgtb_gt in Hc|apply Qgtb_le in Hc];
      unfold screen_width in Hc; split_and!; try done; try lia; try lra;
      intros; try done; lra.
  - specialize (Hl eq_refl).
    destruct (Qltb _ _) eqn:Hc; simpl in *;
      [apply Qltb_lt in Hc|apply Qltb_ge in Hc];
      split_and!; try done; try lia; try lra; intros; try done; lra.
Qed.

(** ** Projectiles keep their shape *)

Lemma updateBullets_Forall (P : GameObject -> Prop) s :
  (forall a, P a -> Qltb (y (advance a)) 0 = false -> P (advance a)) ->
  Forall P (bullets s) -> Forall P (bullets (updateBullets s)).
Proof.
  intros Hadv. unfold updateBullets.
  apply (forEach_invariant (fun s' => Forall P (bullets s'))).
  intros a i s' Hb Hi. cbv zeta.
  pose proof (Forall_advance_or_drop P _ i a (Qltb (y (advance a)) 0) Hb Hi)
    as Hstep.
  destruct (Qltb (y (advance a)) 0) eqn:E; simpl; apply Hstep; try done.
  intros _. apply Hadv; [|done]. by eapply Forall_lookup_1.
Qed.

Lemma updateBossBullets_Forall (R : GameObject -> Prop) s :
  (forall a, R a -> Qgtb (y (advance a)) screen_height = false -> R (advance a)) ->
  Forall R (bossBullets s) -> Forall R (bossBullets (updateBossBullets s)).
Proof.
  intros Hadv. unfold updateBossBullets.
  apply (forEach_invariant (fun s' => Forall R (bossBullets s'))).
  intros a i s1 Hbb Hi. cbv zeta.
  pose proof (Forall_advance_or_drop R _ i a
                (Qgtb (y (advance a)) screen_height) Hbb Hi) as Hstep.
  set (s3 := if Qgtb _ _ then _ else _).
  assert (Hs3 : Forall R (bossBullets s3)).
  { subst s3. destruct (Qgtb (y (advance a)) screen_height) eqn:E; simpl;
      apply Hstep; try done.
    intros _. apply Hadv; [|done]. by eapply Forall_lookup_1. }
  clearbody s3. destruct (hitsPlayer _ s3); [done|].
  apply (forEach_invariant (fun s' => Forall R (bossBullets s'))); [|done].
  intros pb j s4 H4 _. destruct (checkCollision _ _); [|done].
  simpl. by apply Forall_delete.
Qed.

Lemma playerBulletShape_advance a :
  playerBulletShape a -> Qltb (y (advance a)) 0 = false ->
  playerBulletShape (advance a).
Proof.
  intros (Hv & Hw & Hh & Hlo & Hhi). unfold advance. rewrite Hv.
  intros Hon%Qltb_ge. unfold playerBulletShape.
  cbn [vy width height y set_y] in *. split_and!; try done. lra.
Qed.

Lemma bossBulletShape_advance a :
  bossBulletShape a -> Qgtb (y (advance a)) screen_height = false ->
  bossBulletShape (advance a).
Proof.
  intros (Hv & Hw & Hh & Hlo & Hhi). unfold advance. rewrite Hv.
  intros Hon%Qgtb_le. unfold screen_height in Hon. unfold bossBulletShape.
  cbn [vy width height y set_y] in *. split_and!; try done. lra.
Qed.

Lemma afterShot_bossBullets_Forall (R : GameObject -> Prop) gate s :
  (forall a, R a -> Qgtb (y (advance a)) screen_height = false -> R (advance a)) ->
  Forall R (bossBullets s) -> Forall R (bossBullets (result (afterShot gate s))).
Proof.
  intros Hadv Hs. apply (updateBossBullets_Forall R s Hadv) in Hs.
  unfold afterShot. set (s1 := updateBossBullets s) in *. clearbody s1.
  assert (Htail : forall s2, bossBullets s2 = bossBullets s1 ->
            Forall R (bossBullets (result (Continue s2
               >>> (fun s => bossHitLoop (length (bullets s)) s) >>> loseCheck)))).
  { intros s2 E. cbn [andThen].
    destruct (bossHitLoop_summary (length (bullets s2)) s2) as (_ & F & _).
    destruct (bossHitLoop _ s2) as [r|r]; cbn [andThen result] in *.
    - by rewrite F, E.
    - unfold loseCheck. destruct (noAmmoLeft r); simpl; by rewrite F, E. }
  destruct (playerBossCollision_cases gate s1) as [-> | ->]; [by apply Htail|done].
Qed.

(** ** The boss's hit points and the outcome of a level-two tick *)

Lemma bossHitLoop_outcome rounds s b :
  (rounds <= length (bullets s))%nat -> boss s = Some b -> (1 <= hp b)%Z ->
  match bossHitLoop rounds s with
  | Return r =>
      gameState r = win /\ exists b', boss r = Some b' /\ hp b' = 0%Z
  | Continue r =>
      gameState r = gameState s /\
      exists b', boss r = Some b' /\ (1 <= hp b' <= hp b)%Z
  end.
Proof.
  revert s b. induction rounds as [|i IH]; intros s b Hlen Hb Hhp; simpl.
  - split; [done|]. exists b. split; [done|lia].
  - destruct (lookup_lt_is_Some_2 (bullets s) i) as [bullet Hbullet]; [lia|].
    rewrite Hbullet, Hb.
    destruct (checkCollision bullet b); [|by apply IH; [lia|..]].
    cbv zeta. cbn [hp set_hp].
    destruct (hp b - 1 =? 0)%Z eqn:Hz.
    + apply Z.eqb_eq in Hz. split; [done|]. eexists. split; [done|]. simpl. lia.
    + apply Z.eqb_neq in Hz.
      specialize (IH (set_boss (Some (set_hp (hp b - 1) b))
                        (set_bullets (delete i (bullets s)) s))
                     (set_hp (hp b - 1) b)).
      cbn [bullets boss set_boss set_bullets hp set_hp gameState] in IH.
      rewrite length_delete in IH by (by rewrite Hbullet).
      specialize (IH ltac:(lia) eq_refl ltac:(lia)).
      destruct (bossHitLoop i _) as [r|r]; [done|].
      destruct IH as (Hg & b' & Hb' & Hh). split; [done|].
      exists b'. split; [done|lia].
Qed.

(** After the boss's shot, a level-two tick ends in [level2] with the boss
    alive and ammunition left, in [win] with the boss at 0 hit points, or
    in [lose]. *)
Lemma afterShot_outcome gate s b :
  gameState s = level2 -> boss s = Some b -> (1 <= hp b)%Z ->
  let r := result (afterShot gate s) in
  (exists b', boss r = Some b' /\ (0 <= hp b' <= hp b)%Z /\
     (gameState r = level2 -> (1 <= hp b')%Z) /\
     (gameState r = win -> hp b' = 0%Z)) /\
  (gameState r = level2 -> noAmmoLeft r = false) /\
  (gameState r = level2 \/ gameState r = win \/ gameState r = lose).
Proof.
  intros Hg Hb Hhp. cbv zeta. unfold afterShot.
  destruct (updateBossBullets_summary s) as (_ & _ & _ & Hg1).
  destruct (updateBossBullets_sameActors s) as (_ & _ & Hb1 & _).
  rewrite Hg in Hg1. rewrite Hb in Hb1.
  set (s1 := updateBossBullets s) in *. clearbody s1.
  assert (Htail : forall s2, boss s2 = Some b ->
            (gameState s2 = level2 \/ gameState s2 = lose) ->
            let r := result (Continue s2
                       >>> (fun s => bossHitLoop (length (bullets s)) s)
                       >>> loseCheck) in
            (exists b', boss r = Some b' /\ (0 <= hp b' <= hp b)%Z /\
               (gameState r = level2 -> (1 <= hp b')%Z) /\
               (gameState r = win -> hp b' = 0%Z)) /\
            (gameState r = level2 -> noAmmoLeft r = false) /\
            (gameState r = level2 \/ gameState r = win \/ gameState r = lose)).
  { intros s2 Hb2 Hg2. cbv zeta. cbn [andThen].
    pose proof (bossHitLoop_outcome (length (bullets s2)) s2 b
                  (Nat.le_refl _) Hb2 Hhp) as Hloop.
    destruct (bossHitLoop _ s2) as [r|r]; cbn [andThen result].
    - destruct Hloop as (Hw & b' & Hb' & Hz). split_and!.
      + exists b'. split_and!; [done|lia|lia|intros ?; congruence|done].
      + intros ?; congruence.
      + auto.
    - destruct Hloop as (Hgr & b' & Hb' & Hh). unfold loseCheck.
      destruct (noAmmoLeft r) eqn:Hammo; simpl.
      + split_and!; [|done|auto].
        exists b'. split_and!; [done|lia|lia|done|done].
      + split_and!; [|done|rewrite Hgr; tauto].
        exists b'. split_and!; [done|lia|lia|lia|].
        intros Hw. rewrite Hgr in Hw. destruct Hg2; congruence. }
  destruct (playerBossCollision_cases gate s1) as [-> | ->].
  - by apply Htail.
  - simpl. split_and!; [|done|auto].
    exists b. split_and!; [done|lia|lia|done|done].
Qed.

(** ** The session invariant *)

Lemma playerMovement_frame s :
  appRef (playerMovement s) = appRef s /\ boss (playerMovement s) = boss s /\
  bullets (playerMovement s) = bullets s /\
  asteroids (playerMovement s) = asteroids s /\
  bossBullets (playerMovement s) = bossBullets s /\
  bulletsRemaining (playerMovement s) = bulletsRemaining s /\
  timeRemaining (playerMovement s) = timeRemaining s /\
  gameState (playerMovement s) = gameState s /\
  keys (playerMovement s) = keys s /\
  (is_Some (player s) -> is_Some (player (playerMovement s))).
Proof.
  unfold playerMovement.
  destruct (player s); simpl; split_and!; try done; intros _; by eexists.
Qed.

(** The store of an active tick after the timer, the ship and the player
    bullets have been updated. *)
Lemma afterMotion_facts currentTime s :
  playerInBounds (player s) -> Forall playerBulletShape (bullets s) ->
  let m := afterMotion currentTime s in
  playerInBounds (player m) /\ Forall playerBulletShape (bullets m) /\
  (length (bullets m) <= length (bullets s))%nat /\
  boss m = boss s /\ bossBullets m = bossBullets s /\
  asteroids m = asteroids s /\
  bulletsRemaining m = bulletsRemaining s /\
  timeRemaining m = timeRemaining (afterTimer currentTime s) /\
  gameState m = gameState s /\ appRef m = appRef s /\ keys m = keys s /\
  (is_Some (player s) -> is_Some (player m)).
Proof.
  intros Hp Hb. cbv zeta. unfold afterMotion.
  set (t := afterTimer currentTime s).
  destruct (playerMovement_frame t)
    as (Fa & Fb & Fbu & Fas & Fbb & Fr & Ft & Fg & Fk & Fp).
  destruct (updateBullets_sameActors (playerMovement t))
    as (Ua & Up & Ub & Uk & Ur & Ut & _).
  rewrite Ua, Up, Ub, Uk, Ur, Ut, updateBullets_bossBullets,
    updateBullets_asteroids, updateBullets_gameState.
  rewrite Fa, Fb, Fas, Fbb, Fr, Ft, Fg, Fk.
  split_and!; try done.
  - by apply playerMovement_bounds.
  - apply updateBullets_Forall; [apply playerBulletShape_advance|].
    by rewrite Fbu.
  - etrans; [apply updateBullets_length|]. by rewrite Fbu.
Qed.

Lemma sessionOK_startLevel1 rnd now s :
  sessionOK s -> sessionOK (startLevel1 rnd now s).
Proof.
  intros (Hp & Hb & Hbu & Hbb & [Hr Ha] & Hast & Ho). unfold startLevel1.
  destruct (appRef s) eqn:Happ; simpl; [|by split_and!].
  split_and!; simpl; try done; try lia.
  split; [done|]. exists 128%Z. split; [lia|reflexivity].
Qed.

Lemma sessionOK_startLevel2 bossTime now s :
  appRef s = true -> (length (asteroids s) <= 5)%nat ->
  sessionOK (startLevel2 bossTime now s).
Proof.
  intros Happ Hast. unfold startLevel2. rewrite Happ. simpl.
  split_and!; simpl; try done; try lia.
  - split; [done|]. exists 128%Z. split; [lia|reflexivity].
  - unfold outcomeOK. simpl. split_and!; try done.
    eexists. split; [done|]. simpl. lia.
Qed.

Lemma sessionOK_restartGame s : sessionOK s -> sessionOK (restartGame s).
Proof.
  intros (Hp & Hb & Hbu & Hbb & [Hr Ha] & Hast & Ho). unfold restartGame.
  destruct (appRef s) eqn:Happ; simpl; [|by split_and!].
  split_and!; simpl; try done; try lia.
  split; simpl; lia.
Qed.

Lemma outcomeOK_frame s s' :
  gameState s' = gameState s -> appRef s' = appRef s -> player s' = player s ->
  timeRemaining s' = timeRemaining s -> asteroids s' = asteroids s ->
  boss s' = boss s -> noAmmoLeft s' = noAmmoLeft s ->
  outcomeOK s -> outcomeOK s'.
Proof.
  unfold outcomeOK. intros -> -> -> -> -> -> ->. done.
Qed.

Lemma sessionOK_handleKeyUp code s : sessionOK s -> sessionOK (handleKeyUp code s).
Proof. intros (Hp & Hb & Hbu & Hbb & Ha & Hast & Ho). by split_and!. Qed.

Lemma sessionOK_appInit s : sessionOK s -> sessionOK (appInit s).
Proof.
  intros (Hp & Hb & Hbu & Hbb & Ha & Hast & Ho). split_and!; try done.
  unfold outcomeOK in *. simpl.
  destruct (gameState s); try done; destruct Ho as (_ & ?); by split.
Qed.

Lemma sessionOK_handleKeyDown code s :
  Inv s -> sessionOK s -> sessionOK (handleKeyDown code s).
Proof.
  intros (_ & Hpy & _) (Hp & Hb & Hbu & Hbb & [Hr Ha] & Hast & Ho).
  unfold handleKeyDown. cbv zeta.
  destruct (bool_decide _); simpl; [|by split_and!].
  destruct (0 <? bulletsRemaining s)%Z eqn:Hpos; simpl; [|by split_and!].
  destruct (player s) as [p|] eqn:Hpl; simpl;
    [|split_and!; simpl; rewrite ?Hpl; try done; by split].
  apply Z.ltb_lt in Hpos. destruct Hpy as [Hy _].
  split_and!; simpl; try done.
  - by rewrite Hpl.
  - apply Forall_app. split; [done|]. apply Forall_singleton.
    unfold playerBulletShape. simpl. rewrite Hy. split_and!; by vm_compute.
  - split; simpl; [lia|]. rewrite length_app. simpl. lia.
  - assert (Hammo : noAmmoLeft
              (set_bulletsRemaining (bulletsRemaining s - 1)
                 (set_bullets (bullets s ++ [createBullet (x p) (y p - 20) true])
                    (set_keys (<[code:=true]> (keys s)) s))) = false).
    { unfold noAmmoLeft. simpl. rewrite length_app. simpl.
      replace (length (bullets s) + 1)%nat with (S (length (bullets s))) by lia.
      apply andb_false_r. }
    unfold outcomeOK in *. simpl. rewrite Hpl.
    destruct (gameState s); try done.
    + destruct Ho as (?&?&?&?&?). by split_and!.
    + destruct Ho as (?&?&?&?&?). by split_and!.
Qed.

Lemma sessionOK_lose s : sessionOK s -> sessionOK (set_gameState lose s).
Proof. intros (Hp & Hb & Hbu & Hbb & Ha & Hast & Ho). by split_and!. Qed.

Lemma sessionOK_gameLoopWith gate currentTime bossTime now s :
  Inv s -> sessionOK s ->
  sessionOK (gameLoopWith gate currentTime bossTime now s).
Proof.
  intros HI Hs.
  destruct (decide (active s)) as [Hact|Hact];
    [|by rewrite gameLoopWith_inactive].
  destruct (Qlt_le_dec 0 (timeRemaining (afterTimer currentTime s))) as [Ht|Ht].
  2:{ rewrite gameLoopWith_timeout by done.
      destruct Hs as (Hp & Hb & Hbu & Hbb & Ha & Hast & Ho). by split_and!. }
  pose proof (Qlt_not_le _ _ Ht) as Hnt.
  destruct Hs as (Hp & Hb & Hbu & Hbb & [Hr Ha] & Hast & Ho).
  destruct (afterMotion_facts currentTime s Hp Hbu)
    as (Mp & Mbu & Mlen & Mb & Mbb & Mast & Mr & Mt & Mg & Mapp & _ & Mpl).
  destruct Hact as [Happ Hg].
  assert (Hpl : is_Some (player s)).
  { unfold outcomeOK in Ho. destruct Hg as [Hg|Hg]; rewrite Hg in Ho; tauto. }
  specialize (Mpl Hpl).
  set (m := afterMotion currentTime s) in *.
  destruct Hg as [Hg|Hg].
  - rewrite gameLoopWith_level1, level1Logic_result by
      (try done; by rewrite afterMotion_gameState).
    cbv zeta. fold m.
    destruct (bulletLoop_sameActors (length (bullets m)) m)
      as (Sa & Sp & Sb & _ & Sr & St & _).
    destruct (bulletLoop_sublist (length (bullets m)) m) as [Sbu Sast].
    pose proof (bulletLoop_bossBullets (length (bullets m)) m) as Sbb.
    pose proof (bulletLoop_gameState (length (bullets m)) m) as Sg.
    fold (scanBullets m) in *. set (mid := scanBullets m) in *. clearbody mid.
    assert (Hlen : (length (asteroids mid) <= 5)%nat).
    { apply sublist_length in Sast. rewrite Mast in Sast. lia. }
    assert (Hmid : sessionOK (set_gameState lose mid)).
    { split_and!; simpl.
      - by rewrite Sp.
      - by rewrite Sb, Mb.
      - by eapply Forall_sublist.
      - by rewrite Sbb, Mbb.
      - apply sublist_length in Sbu. split; simpl; rewrite Sr, Mr; lia.
      - done.
      - done. }
    destruct (asteroids mid) eqn:Hnone.
    + apply sessionOK_startLevel2.
      * rewrite Sa, Mapp. exact Happ.
      * rewrite Hnone. simpl. lia.
    + destruct (noAmmoLeft mid) eqn:Hammo; [exact Hmid|].
      destruct Hmid as (?&?&?&?&?&?&_). split_and!; try done.
      unfold outcomeOK. rewrite Sg, Mg, Hg, Sa, Sp, St, Mapp, Mt, Hnone.
      by split_and!.
  - rewrite gameLoopWith_level2 by done. fold m.
    assert (Hboss : exists b, boss s = Some b /\ (1 <= hp b)%Z).
    { unfold outcomeOK in Ho. rewrite Hg in Ho. tauto. }
    destruct Hboss as (b & Eb & Hhp). rewrite Eb in Hb, Mb.
    rewrite (level2Logic_unfold _ _ _ b) by (by rewrite ?Mg).
    pose proof (bossMovement_bounds currentTime b Hb) as Hb1.
    destruct (bossMovement_body currentTime b) as (Ey & Eh & El & Ehp).
    set (b1 := bossMovement currentTime b) in *. clearbody b1.
    destruct HI as (_ & _ & HbossOK & _). rewrite Eb in HbossOK.
    destruct HbossOK as [Hy _].
    set (s2 := bossShooting currentTime (set_boss (Some b1) m)).
    assert (H2 : exists b2, boss s2 = Some b2 /\ hp b2 = hp b /\
                   bossInBounds (Some b2) /\
                   Forall bossBulletShape (bossBullets s2) /\
                   gameState s2 = level2 /\ bullets s2 = bullets m /\
                   asteroids s2 = asteroids m /\ player s2 = player m /\
                   appRef s2 = appRef m /\
                   bulletsRemaining s2 = bulletsRemaining m /\
                   timeRemaining s2 = timeRemaining m).
    { subst s2. unfold bossShooting. simpl. destruct (_ >? 2000)%Z; simpl.
      - exists (set_lastShot currentTime b1).
        split; [done|]. split; [exact Ehp|]. split; [exact Hb1|].
        split; [|by rewrite Mg].
        rewrite Mbb. apply Forall_app. split; [done|]. apply Forall_singleton.
        unfold bossBulletShape. simpl. rewrite Ey, Hy. split_and!; by vm_compute.
      - exists b1.
        split; [done|]. split; [exact Ehp|]. split; [exact Hb1|].
        split; [by rewrite Mbb|by rewrite Mg]. }
    clearbody s2.
    destruct H2 as (b2 & Eb2 & Ehp2 & Hb2 & Hbb2 & Hg2 & Ebu2 & Eas2 & Epl2
                    & Eapp2 & Er2 & Et2).
    destruct (afterShot_sameCrew gate s2) as (Ca & Cp & Cb & _ & Cr & Ct & _).
    destruct (afterShot_summary gate s2) as (Cast & Cbu & _).
    pose proof (afterShot_bossBullets_Forall bossBulletShape gate s2
                  bossBulletShape_advance Hbb2) as Cbb.
    destruct (afterShot_outcome gate s2 b2 Hg2 Eb2 ltac:(lia))
      as ((b' & Eb' & Hh' & Hlive & Hdead) & Hammo & Hout).
    set (r := result (afterShot gate s2)) in *. clearbody r.
    rewrite Eb2, Eb' in Cb. simpl in Cb.
    split_and!.
    + by rewrite Cp, Epl2.
    + rewrite Eb', Cb. destruct Hb2 as (?&?&?&?&?&?&?).
      unfold bossInBounds. simpl. split_and!; try done; lia.
    + eapply Forall_sublist; [exact Cbu|]. by rewrite Ebu2.
    + done.
    + apply sublist_length in Cbu. rewrite Ebu2 in Cbu.
      split; simpl; rewrite Cr, Er2, Mr; lia.
    + by rewrite Cast, Eas2, Mast.
    + unfold outcomeOK. destruct Hout as [E|[E|E]]; rewrite E.
      * rewrite Ca, Cp, Ct, Eapp2, Epl2, Et2, Mapp, Mt.
        split_and!; try done; [by eexists; split; [done|auto]|auto].
      * exists b'. auto.
      * done.
Qed.

Lemma sessionOK_handle e s : Inv s -> sessionOK s -> sessionOK (handle e s).
Proof.
  intros HI Hs. destruct e; simpl.
  - by apply sessionOK_appInit.
  - by apply sessionOK_startLevel1.
  - by apply sessionOK_restartGame.
  - by apply sessionOK_gameLoopWith.
  - by apply sessionOK_handleKeyDown.
  - by apply sessionOK_handleKeyUp.
Qed.

Lemma reachable_sessionOK s : reachable s -> sessionOK s.
Proof.
  induction 1 as [|s e Hs IH].
  - split_and!; simpl; try done; lia.
  - apply sessionOK_handle; [by apply reachable_Inv|done].
Qed.

(** X1.  In a session the ship never leaves the screen: its centre stays
    on the line y = 660, between x = 15 and x = 1265, so that its box, 30
    wide and 40 high, lies inside the 1280 by 720 screen. *)
Theorem X1_player_stays_on_screen (s : Store) (p : GameObject) :
  reachable s -> player s = Some p ->
  (15 <= x p)%Q /\ (x p <= 1265)%Q /\ y p = 660%Q /\
  width p = 30%Q /\ height p = 40%Q /\
  (0 <= left p)%Q /\ (right p <= screen_width)%Q /\
  (0 <= top p)%Q /\ (bottom p <= screen_height)%Q.
Proof.
  intros Hs Hp.
  destruct (reachable_Inv s Hs) as (_ & Hpy & _).
  destruct (reachable_sessionOK s Hs) as (Hpx & _).
  rewrite Hp in Hpy, Hpx. destruct Hpy as [Hy Hh].
  destruct Hpx as (Hw & k & Hk & Hx).
  assert (Hlo : (15 <= x p)%Q).
  { rewrite Hx. change 15%Q with (inject_Z 15). rewrite <- Zle_Qle. lia. }
  assert (Hhi : (x p <= 1265)%Q).
  { rewrite Hx. change 1265%Q with (inject_Z 1265). rewrite <- Zle_Qle. lia. }
  unfold screen_width, screen_height. halves.
  rewrite Hw, Hh, Hy. split_and!; try done; lra.
Qed.

Lemma X1_player_stays_on_screen_witness :
  (15 <= x createPlayer)%Q /\ (right createPlayer <= screen_width)%Q.
Proof.
  assert (Hr : reachable levelOneStarted) by apply reachable_run, reachable_init.
  destruct (X1_player_stays_on_screen levelOneStarted createPlayer Hr eq_refl)
    as (H1 & _ & _ & _ & _ & _ & H2 & _).
  by split.
Defined.

(** X2.  In a session the boss stays in its corridor: its centre is on the
    line y = 100, between x = 38 and x = 1242, never beyond 1240 while it
    heads right and never before 40 while it heads left. *)
Theorem X2_boss_stays_in_corridor (s : Store) (b : Boss) :
  reachable s -> boss s = Some b ->
  (38 <= x b)%Q /\ (x b <= 1242)%Q /\ y b = 100%Q /\
  width b = 80%Q /\ height b = 60%Q /\
  (movingRight b = true -> (x b <= 1240)%Q) /\
  (movingRight b = false -> (40 <= x b)%Q).
Proof.
  intros Hs Hb.
  destruct (reachable_Inv s Hs) as (_ & _ & Hby & _).
  destruct (reachable_sessionOK s Hs) as (_ & Hbx & _).
  rewrite Hb in Hby, Hbx. destruct Hby as [Hy Hh].
  destruct Hbx as (Hw & Hlo & Hhi & Hr & Hl & _). by split_and!.
Qed.

Lemma X2_boss_stays_in_corridor_witness :
  exists b, boss inLevelTwo = Some b /\ (38 <= x b)%Q /\ (x b <= 1242)%Q.
Proof.
  assert (Hr : reachable inLevelTwo) by apply reachable_run, reachable_init.
  assert (Hb : boss inLevelTwo =
               Some (set_lastShot 1700000000832 (createBoss 1700000000816)))
    by (by vm_compute).
  destruct (X2_boss_stays_in_corridor inLevelTwo _ Hr Hb) as (H1 & H2 & _).
  eexists. split_and!; [exact Hb|exact H1|exact H2].
Defined.

(** X3.  The boss moves only in the odd 3-second buckets counted from
    [moveStartTime]: it stands still for the first 3 seconds, and also
    whenever the clock reads earlier than [moveStartTime] (JavaScript's
    remainder of a negative odd number is -1, not 1).  In a moving bucket
    it shifts by 2 in its direction and keeps its height on the screen. *)
Theorem X3_boss_moves_in_odd_buckets (currentTime : Z) (b : Boss) :
  let d := (currentTime - moveStartTime b)%Z in
  (movePhase currentTime b = 1%Z <->
     (0 <= d)%Z /\ ((d / 3000) mod 2 = 1)%Z) /\
  ((d < 3000)%Z -> bossMovement currentTime b = b) /\
  (movePhase currentTime b <> 1%Z -> bossMovement currentTime b = b) /\
  (movePhase currentTime b = 1%Z ->
     x (bossMovement currentTime b) =
       (if movingRight b then x b + 2 else x b - 2)%Q /\
     y (bossMovement currentTime b) = y b).
Proof.
  cbv zeta. unfold movePhase.
  set (d := (currentTime - moveStartTime b)%Z).
  assert (Hphase : Z.rem (d / 3000) 2 = 1%Z <->
                   (0 <= d)%Z /\ ((d / 3000) mod 2 = 1)%Z).
  { destruct (Z.le_gt_cases 0 d) as [Hd|Hd].
    - rewrite Z.rem_mod_nonneg by (try apply Z.div_pos; lia). tauto.
    - assert (Hq : (d / 3000 < 0)%Z) by (apply Z.div_lt_upper_bound; lia).
      pose proof (Z.rem_nonpos (d / 3000) 2 ltac:(lia) ltac:(lia)). lia. }
  assert (Hstill : Z.rem (d / 3000) 2 <> 1%Z -> bossMovement currentTime b = b).
  { intros Hne. unfold bossMovement, movePhase. fold d.
    by apply Z.eqb_neq in Hne as ->. }
  split_and!; [exact Hphase| |exact Hstill|].
  - intros Hd. apply Hstill. rewrite Hphase. intros [H0 Hm].
    rewrite Z.div_small in Hm by lia. done.
  - intros H1. unfold bossMovement, movePhase. fold d.
    apply Z.eqb_eq in H1 as ->.
    destruct (movingRight b); cbv zeta.
    + by destruct (Qgtb _ _).
    + by destruct (Qltb _ _).
Qed.

Lemma X3_boss_moves_in_odd_buckets_witness :
  bossMovement (t0 + 2999) (createBoss t0) = createBoss t0 /\
  x (bossMovement (t0 + 3000) (createBoss t0)) = (x (createBoss t0) + 2)%Q /\
  bossMovement (t0 - 3000) (createBoss t0) = createBoss t0.
Proof.
  destruct (X3_boss_moves_in_odd_buckets (t0 + 2999) (createBoss t0))
    as (_ & H1 & _).
  destruct (X3_boss_moves_in_odd_buckets (t0 + 3000) (createBoss t0))
    as (_ & _ & _ & H2).
  destruct (X3_boss_moves_in_odd_buckets (t0 - 3000) (createBoss t0))
    as (_ & H3 & _).
  split_and!.
  - apply H1. by vm_compute.
  - apply H2. by vm_compute.
  - apply H3. by vm_compute.
Defined.

(** X4.  In a session the boss always has a maximum of 4 hit points and
    between 0 and 4 left; level two always has a boss with at least one
    hit point, and the outcome [win] always comes with a boss at 0. *)
Theorem X4_boss_hit_points (s : Store) :
  reachable s ->
  (forall b, boss s = Some b -> maxHp b = 4%Z /\ (0 <= hp b <= 4)%Z) /\
  (gameState s = level2 -> exists b, boss s = Some b /\ (1 <= hp b)%Z) /\
  (gameState s = win -> exists b, boss s = Some b /\ hp b = 0%Z).
Proof.
  intros Hs. destruct (reachable_sessionOK s Hs) as (_ & Hb & _ & _ & _ & _ & Ho).
  unfold outcomeOK in Ho. split_and!.
  - intros b Eb. rewrite Eb in Hb. destruct Hb as (_&_&_&_&_&?&?). done.
  - intros E. rewrite E in Ho. tauto.
  - intros E. by rewrite E in Ho.
Qed.

Lemma X4_boss_hit_points_witness :
  exists b, boss inLevelTwo = Some b /\ (1 <= hp b)%Z.
Proof.
  assert (Hr : reachable inLevelTwo) by apply reachable_run, reachable_init.
  destruct (X4_boss_hit_points inLevelTwo Hr) as (_ & H & _).
  apply H. by vm_compute.
Defined.

(** X5.  In a session a running level always has the application
    attached, a ship, time left on the clock and ammunition in stock or in
    flight; level one has at least one asteroid; and there are never more
    than 5 asteroids. *)
Theorem X5_running_level_is_playable (s : Store) :
  reachable s ->
  (length (asteroids s) <= 5)%nat /\
  (gameState s = level1 \/ gameState s = level2 ->
     appRef s = true /\ is_Some (player s) /\ (0 < timeRemaining s)%Q /\
     noAmmoLeft s = false) /\
  (gameState s = level1 -> asteroids s <> []).
Proof.
  intros Hs. destruct (reachable_sessionOK s Hs) as (_ & _ & _ & _ & _ & Ha & Ho).
  unfold outcomeOK in Ho. split_and!; [done| |].
  - intros [E|E]; rewrite E in Ho; tauto.
  - intros E. rewrite E in Ho. tauto.
Qed.

Lemma X5_running_level_is_playable_witness :
  (0 < timeRemaining inLevelTwo)%Q /\ noAmmoLeft inLevelTwo = false.
Proof.
  assert (Hr : reachable inLevelTwo) by apply reachable_run, reachable_init.
  destruct (X5_running_level_is_playable inLevelTwo Hr) as (_ & H & _).
  destruct H as (_ & _ & H1 & H2); [right; by vm_compute|].
  by split.
Defined.

(** X6.  In a session the ammunition never exceeds the budget of 10: what
    is left to fire plus what is in flight is at most 10, so at most 10
    player bullets are ever in flight. *)
Theorem X6_ammo_budget (s : Store) :
  reachable s ->
  (0 <= bulletsRemaining s <= 10)%Z /\
  (Z.of_nat (length (bullets s)) + bulletsRemaining s <= 10)%Z /\
  (length (bullets s) <= 10)%nat.
Proof.
  intros Hs. destruct (reachable_sessionOK s Hs) as (_ & _ & _ & _ & [H1 H2] & _).
  lia.
Qed.

Lemma X6_ammo_budget_witness :
  (Z.of_nat (length (bullets oneShotFired)) + bulletsRemaining oneShotFired
     <= 10)%Z.
Proof.
  assert (Hr : reachable oneShotFired)
    by apply reachable_run, reachable_run, reachable_init.
  apply (X6_ammo_budget oneShotFired Hr).
Defined.

(** X7.  A tick never adds an asteroid or a player bullet and adds at most
    one boss bullet: the asteroids after it are a sublist of the asteroids
    before it. *)
Theorem X7_tick_never_adds (currentTime bossTime now : Z) (s : Store) :
  let s' := gameLoop currentTime bossTime now s in
  asteroids s' `sublist_of` asteroids s /\
  (length (bullets s') <= length (bullets s))%nat /\
  (length (bossBullets s') <= S (length (bossBullets s)))%nat.
Proof. apply gameLoopWith_collections. Qed.

(** X12.  In a session every player bullet is 6 by 6, moves up by 8 a tick
    and is between the top edge and the height where it was fired
    (y from 0 to 640); every boss bullet is 6 by 6, moves down by 6 a tick
    and is between its muzzle and the bottom edge (y from 130 to 720). *)
Theorem X12_projectiles_keep_their_shape (s : Store) :
  reachable s ->
  Forall playerBulletShape (bullets s) /\
  Forall bossBulletShape (bossBullets s).
Proof.
  intros Hs. destruct (reachable_sessionOK s Hs) as (_ & _ & H1 & H2 & _).
  by split.
Qed.

Lemma X12_projectiles_keep_their_shape_witness :
  Forall bossBulletShape (bossBullets inLevelTwo).
Proof.
  assert (Hr : reachable inLevelTwo) by apply reachable_run, reachable_init.
  apply (X12_projectiles_keep_their_shape inLevelTwo Hr).
Defined.

(** ** Where the asteroids appear *)

Lemma asteroid_inside (u v : Q) :
  (0 <= u)%Q -> (u < 1)%Q -> (0 <= v)%Q -> (v < 1)%Q ->
  let a := createAsteroid (u * (screen_width - 60) + 30) (v * 300 + 50) in
  (30 <= x a)%Q /\ (x a < 1250)%Q /\ (50 <= y a)%Q /\ (y a < 350)%Q /\
  (0 <= left a)%Q /\ (right a < screen_width)%Q /\
  (20 <= top a)%Q /\ (bottom a < 380)%Q /\
  checkCollision a createPlayer = false.
Proof.
  intros Hu0 Hu1 Hv0 Hv1. cbv zeta.
  split_and!;
    try (unfold screen_width; halves;
         cbn [x y width height createAsteroid]; lra).
  apply not_true_iff_false. intros (_ & _ & _ & H)%checkCollision_true.
  halves. cbn [x y width height createAsteroid createPlayer] in H.
  unfold screen_width, screen_height in H. lra.
Qed.

(** X8.  When the draws of [Math.random()] are in [0, 1), each of the five
    asteroids [startLevel1] creates has its centre in [30, 1250) by
    [50, 350); its 60 by 60 box lies inside the screen, above y = 380, and
    does not overlap the ship. *)
Theorem X8_asteroids_spawn_inside (rnd : nat -> Q) (now : Z) (s : Store) :
  (forall k, (0 <= rnd k)%Q /\ (rnd k < 1)%Q) -> appRef s = true ->
  Forall (fun a =>
            (30 <= x a)%Q /\ (x a < 1250)%Q /\ (50 <= y a)%Q /\ (y a < 350)%Q /\
            (0 <= left a)%Q /\ (right a < screen_width)%Q /\
            (20 <= top a)%Q /\ (bottom a < 380)%Q /\
            checkCollision a createPlayer = false)
         (asteroids (startLevel1 rnd now s)).
Proof.
  intros Hrnd Happ. unfold startLevel1. rewrite Happ.
  cbn [negb asteroids set_asteroids set_player set_bullets set_bulletsRemaining
       set_timeRemaining set_gameState set_lastTime pushAsteroids app].
  repeat (apply Forall_cons; split;
          [apply asteroid_inside; apply Hrnd|]).
  apply Forall_nil_2.
Qed.

Lemma X8_asteroids_spawn_inside_witness :
  Forall (fun a => (0 <= left a)%Q /\ (right a < screen_width)%Q)
         (asteroids levelOneStarted).
Proof.
  assert (Hrnd : forall k : nat, (0 <= (fun _ : nat => 0%Q) k)%Q /\
                                 ((fun _ : nat => 0%Q) k < 1)%Q)
    by (intros k; split; by vm_compute).
  pose proof (X8_asteroids_spawn_inside (fun _ => 0%Q) t0 (appInit initialStore)
                Hrnd eq_refl) as H.
  eapply Forall_impl; [exact H|].
  intros a (_ & _ & _ & _ & H1 & H2 & _). by split.
Defined.

(** ** The bullet-versus-boss loop *)

Lemma bossHitLoop_accounting rounds s b :
  (rounds <= length (bullets s))%nat -> boss s = Some b ->
  exists b', boss (result (bossHitLoop rounds s)) = Some b' /\
    (hp b' + Z.of_nat (length (bullets s)) =
     hp b + Z.of_nat (length (bullets (result (bossHitLoop rounds s)))))%Z.
Proof.
  revert s b. induction rounds as [|i IH]; intros s b Hlen Hb; simpl.
  - by exists b.
  - destruct (lookup_lt_is_Some_2 (bullets s) i) as [bullet Hbullet]; [lia|].
    rewrite Hbullet, Hb.
    destruct (checkCollision bullet b); [|by apply IH; [lia|]].
    cbv zeta. cbn [hp set_hp].
    assert (Hdel : length (delete i (bullets s)) = pred (length (bullets s)))
      by (rewrite length_delete; [lia|by rewrite Hbullet]).
    destruct (hp b - 1 =? 0)%Z.
    + simpl. eexists. split; [done|]. simpl. rewrite Hdel. lia.
    + specialize (IH (set_boss (Some (set_hp (hp b - 1) b))
                        (set_bullets (delete i (bullets s)) s))
                     (set_hp (hp b - 1) b)).
      cbn [bullets boss set_boss set_bullets hp set_hp] in IH.
      rewrite Hdel in IH. destruct (IH ltac:(lia) eq_refl) as (b' & Hb' & Hh).
      exists b'. split; [done|]. lia.
Qed.

(** X9.  The bullet-versus-boss loop charges the boss exactly one hit
    point for each player bullet it removes.  Run on a boss that is alive,
    it either stops at once with the outcome [win] when the hit points
    reach 0 (bullets of lower index are not tested), or goes through all
    bullets, leaves the outcome as it was and the boss alive. *)
Theorem X9_each_hit_costs_one_point (s : Store) (b : Boss) :
  boss s = Some b -> (1 <= hp b)%Z ->
  let f := bossHitLoop (length (bullets s)) s in
  exists b', boss (result f) = Some b' /\
    (hp b' = hp b - Z.of_nat (length (bullets s) - length (bullets (result f))))%Z /\
    bullets (result f) `sublist_of` bullets s /\
    match f with
    | Return r => gameState r = win /\ hp b' = 0%Z
    | Continue r => gameState r = gameState s /\ (1 <= hp b')%Z
    end.
Proof.
  intros Hb Hhp. cbv zeta.
  destruct (bossHitLoop_accounting (length (bullets s)) s b (Nat.le_refl _) Hb)
    as (b' & Hb' & Hacc).
  destruct (bossHitLoop_summary (length (bullets s)) s) as (_ & _ & Hsub).
  pose proof (bossHitLoop_outcome (length (bullets s)) s b
                (Nat.le_refl _) Hb Hhp) as Hout.
  pose proof (sublist_length _ _ Hsub) as Hle.
  exists b'. split_and!; [done|lia|done|].
  destruct (bossHitLoop _ s) as [r|r]; simpl in *.
  - destruct Hout as (Hw & b2 & Hb2 & Hz). split; [done|congruence].
  - destruct Hout as (Hg & b2 & Hb2 & Hz). split; [done|].
    assert (b2 = b') as -> by congruence. lia.
Qed.

Lemma X9_each_hit_costs_one_point_witness :
  gameState (result (bossHitLoop 2 lastHitStore)) = win /\
  length (bullets (result (bossHitLoop 2 lastHitStore))) = 1%nat.
Proof.
  destruct (X9_each_hit_costs_one_point lastHitStore
              (set_hp 1 (set_lastShot t0 (createBoss t0))) eq_refl)
    as (b' & Hb' & Hacc & _ & Hout); [simpl; lia|].
  change (length (bullets lastHitStore)) with 2%nat in *.
  assert (Hret : exists r, bossHitLoop 2 lastHitStore = Return r)
    by (eexists; by vm_compute).
  destruct Hret as [r Hr]. rewrite Hr in *. simpl in *.
  destruct Hout as [Hw Hz]. split; [exact Hw|].
  assert (Hl : (length (bullets r) <= 2)%nat) by (by vm_compute in Hr; injection Hr as <-; simpl; lia).
  lia.
Defined.

(** ** Once the game is over *)

Lemma gameOver_inactive s : gameOver s -> ~ active s.
Proof. intros [H|[H|H]] [_ [H'|H']]; congruence. Qed.

(** X10.  Once the outcome is [menu], [win] or [lose], no sequence of
    ticks and key events changes the outcome, the ship, the asteroids, the
    boss, the boss bullets or the clock: only the two buttons leave a
    finished game. *)
Theorem X10_game_over_needs_a_click (events : list Event) (s : Store) :
  gameOver s -> Forall noClick events ->
  let s' := run events s in
  gameState s' = gameState s /\ player s' = player s /\
  asteroids s' = asteroids s /\ boss s' = boss s /\
  bossBullets s' = bossBullets s /\
  timeRemaining s' = timeRemaining s /\ lastTime s' = lastTime s.
Proof.
  cbv zeta. revert s. induction events as [|e events IH]; intros s Hover Hev.
  - done.
  - apply Forall_cons in Hev as [He Hev]. simpl.
    assert (Hstep : gameState (handle e s) = gameState s /\
                    player (handle e s) = player s /\
                    asteroids (handle e s) = asteroids s /\
                    boss (handle e s) = boss s /\
                    bossBullets (handle e s) = bossBullets s /\
                    timeRemaining (handle e s) = timeRemaining s /\
                    lastTime (handle e s) = lastTime s).
    { destruct e; simpl in *; try done.
      - unfold gameLoop. by rewrite gameLoopWith_inactive by
          (by apply gameOver_inactive).
      - unfold handleKeyDown. cbv zeta. simpl.
        destruct (_ && _); [|done].
        destruct (player s) eqn:E; simpl; by rewrite ?E. }
    destruct Hstep as (Eg & Ep & Ea & Eb & Ebb & Et & El).
    assert (Hover' : gameOver (handle e s)) by (unfold gameOver; by rewrite Eg).
    destruct (IH (handle e s) Hover' Hev) as (?&?&?&?&?&?&?).
    split_and!; congruence.
Qed.

Lemma X10_game_over_needs_a_click_witness :
  gameState (run (ticks t0 3 ++ [KeyDown "Space"; KeyUp "Space"])
                 levelOneTimedOut) = lose.
Proof.
  assert (Hover : gameOver levelOneTimedOut) by (right; right; by vm_compute).
  assert (Hev : Forall noClick (ticks t0 3 ++ [KeyDown "Space"; KeyUp "Space"]))
    by (repeat constructor).
  destruct (X10_game_over_needs_a_click _ levelOneTimedOut Hover Hev) as (-> & _).
  by vm_compute.
Defined.

(** ** The key flags *)

Lemma gameLoopWith_keys gate currentTime bossTime now s :
  keys (gameLoopWith gate currentTime bossTime now s) = keys s /\
  appRef (gameLoopWith gate currentTime bossTime now s) = appRef s.
Proof.
  destruct (decide (active s)) as [Hact|Hact];
    [|by rewrite gameLoopWith_inactive].
  destruct (Qlt_le_dec 0 (timeRemaining (afterTimer currentTime s))) as [Ht|Ht];
    [|by rewrite gameLoopWith_timeout].
  apply Qlt_not_le in Ht.
  assert (Hm : keys (afterMotion currentTime s) = keys s /\
               appRef (afterMotion currentTime s) = appRef s).
  { unfold afterMotion.
    destruct (updateBullets_sameActors (playerMovement (afterTimer currentTime s)))
      as (-> & _ & _ & -> & _).
    destruct (playerMovement_frame (afterTimer currentTime s))
      as (-> & _ & _ & _ & _ & _ & _ & _ & -> & _). done. }
  destruct Hm as [Hk Ha]. destruct Hact as [Happ [Hg|Hg]].
  - rewrite gameLoopWith_level1, level1Logic_result by
      (try done; by rewrite afterMotion_gameState).
    cbv zeta. unfold scanBullets.
    destruct (bulletLoop_sameActors
                (length (bullets (afterMotion currentTime s)))
                (afterMotion currentTime s)) as (Sa & _ & _ & Sk & _).
    set (mid := bulletLoop _ _) in *. clearbody mid.
    destruct (asteroids mid).
    + unfold startLevel2. destruct (appRef mid) eqn:E; simpl;
        rewrite ?Sk, ?Hk; split; try done; congruence.
    + destruct (noAmmoLeft mid); simpl; rewrite Sk, Sa, Hk, Ha; done.
  - rewrite gameLoopWith_level2 by done.
    set (m := afterMotion currentTime s) in *. clearbody m.
    unfold level2Logic. destruct (gameState m); try done.
    destruct (boss m) as [b|]; [|done]. cbv zeta.
    destruct (afterShot_sameCrew gate (bossShooting currentTime
                (set_boss (Some (bossMovement currentTime b)) m)))
      as (-> & _ & _ & -> & _).
    unfold bossShooting. simpl. by destruct (_ >? 2000)%Z.
Qed.

(** X11.  A key reads as held exactly from its key-down to its key-up:
    key-down sets the flag of its own key, key-up clears it, and no other
    event (tick, start, restart, attaching the application) changes any
    flag, so that a key held across a restart is still held in the next
    game.  Before any event no key is held. *)
Theorem X11_key_flags (e : Event) (k : string) (s : Store) :
  keyHeld k (handle e s) = keyAfter e k (keyHeld k s) /\
  keyHeld k initialStore = false.
Proof.
  split; [|done]. unfold keyHeld. destruct e; simpl.
  - done.
  - unfold startLevel1. by destruct (appRef s).
  - unfold restartGame. by destruct (appRef s).
  - unfold gameLoop.
    by destruct (gameLoopWith_keys closeEnough currentTime bossTime now s) as [-> _].
  - assert (Hk : keys (handleKeyDown code s) = <[code := true]> (keys s)).
    { unfold handleKeyDown. cbv zeta. destruct (_ && _); simpl; [|done].
      by destruct (player s). }
    rewrite Hk, lookup_insert. by destruct (decide (code = k)).
  - rewrite lookup_insert. by destruct (decide (code = k)).
Qed.

(** ** A boss bullet reaches the ship *)

Lemma updateBossBullets_first_hit s bb rest :
  bossBullets s = bb :: rest -> hitsPlayer (advance bb) s = true ->
  gameState (updateBossBullets s) = lose.
Proof.
  intros Hbb Hhit. unfold updateBossBullets, forEach. rewrite Hbb.
  cbn [length forEach_from]. rewrite Hbb. cbn [lookup list_lookup]. cbv zeta.
  apply (forEach_from_invariant (fun s' => gameState s' = lose)).
  - intros a i s1 Hl _. cbv zeta.
    set (s3 := if Qgtb _ _ then _ else _).
    assert (H3 : gameState s3 = lose) by (subst s3; by destruct (Qgtb _ _)).
    clearbody s3. destruct (hitsPlayer _ s3); [done|].
    apply (forEach_invariant (fun s' => gameState s' = lose)); [|done].
    intros pb j s4 H4 _. by destruct (checkCollision _ _).
  - set (s3 := if Qgtb _ _ then _ else _).
    assert (H3 : hitsPlayer (advance bb) s3 = true)
      by (subst s3; by destruct (Qgtb _ _)).
    by rewrite H3.
Qed.

(** X15.  In a level-two tick that is not out of time, when the boss
    bullet at the head of the boss bullets overlaps the ship after its
    move, the level is over at the end of the tick: the outcome is [lose],
    unless a player bullet brings the boss to 0 hit points later in the
    same tick, in which case it is [win].  With no player bullet in flight
    it is [lose]. *)
Theorem X15_ship_hit_ends_the_level
    (currentTime bossTime now : Z) (s : Store) (b : Boss)
    (bb : GameObject) (rest : list GameObject) :
  appRef s = true -> gameState s = level2 ->
  ~ (timeRemaining (afterTimer currentTime s) <= 0)%Q ->
  boss s = Some b -> (1 <= hp b)%Z ->
  bossBullets s = bb :: rest ->
  hitsPlayer (advance bb) (afterMotion currentTime s) = true ->
  let s' := gameLoop currentTime bossTime now s in
  (gameState s' = lose \/ gameState s' = win) /\
  (bullets (afterMotion currentTime s) = [] -> gameState s' = lose).
Proof.
  intros Happ Hg Ht Hb Hhp Hbb Hhit. cbv zeta. unfold gameLoop.
  rewrite gameLoopWith_level2 by done.
  destruct (afterMotion_boss currentTime s) as [Mb Mbb].
  pose proof (afterMotion_gameState currentTime s) as Mg.
  set (m := afterMotion currentTime s) in *. clearbody m.
  rewrite Hb in Mb. rewrite Hbb in Mbb. rewrite Hg in Mg.
  rewrite (level2Logic_unfold _ _ _ b) by done.
  destruct (bossMovement_body currentTime b) as (_ & _ & _ & Ehp).
  set (s2 := bossShooting currentTime
               (set_boss (Some (bossMovement currentTime b)) m)).
  assert (H2 : (exists rest', bossBullets s2 = bb :: rest') /\
               hitsPlayer (advance bb) s2 = true /\
               (exists b2, boss s2 = Some b2 /\ hp b2 = hp b) /\
               bullets s2 = bullets m).
  { subst s2. unfold bossShooting, hitsPlayer in *. simpl.
    destruct (_ >? 2000)%Z; simpl; rewrite Mbb; split_and!; eauto. }
  clearbody s2. destruct H2 as ((rest' & Hbb2) & Hhit2 & (b2 & Hb2 & Hhp2) & Hbu2).
  unfold afterShot.
  pose proof (updateBossBullets_first_hit s2 bb rest' Hbb2 Hhit2) as Hl.
  destruct (updateBossBullets_sameActors s2) as (_ & _ & Hb1 & _).
  destruct (updateBossBullets_summary s2) as (_ & Hsub & _).
  rewrite Hb2 in Hb1. rewrite Hbu2 in Hsub.
  set (s1 := updateBossBullets s2) in *. clearbody s1.
  assert (Htail : forall s3, boss s3 = Some b2 -> gameState s3 = lose ->
            bullets s3 = bullets s1 ->
            let r := result (Continue s3
                       >>> (fun s => bossHitLoop (length (bullets s)) s)
                       >>> loseCheck) in
            (gameState r = lose \/ gameState r = win) /\
            (bullets m = [] -> gameState r = lose)).
  { intros s3 Hb3 Hg3 Hbu3. cbv zeta. cbn [andThen].
    pose proof (bossHitLoop_outcome (length (bullets s3)) s3 b2
                  (Nat.le_refl _) Hb3 ltac:(lia)) as Hloop.
    split.
    - destruct (bossHitLoop _ s3) as [r|r]; cbn [andThen result].
      + right. tauto.
      + left. destruct Hloop as [Hgr _]. unfold loseCheck.
        destruct (noAmmoLeft r); simpl; congruence.
    - intros Hnone. rewrite Hnone in Hsub. apply sublist_nil_r in Hsub.
      rewrite Hbu3, Hsub. simpl. unfold loseCheck.
      destruct (noAmmoLeft s3); simpl; congruence. }
  destruct (playerBossCollision_cases closeEnough s1) as [-> | ->].
  - by apply Htail.
  - simpl. split; [by left|done].
Qed.

Lemma X15_ship_hit_ends_the_level_witness :
  gameState (gameLoop (t0 + 16) 0 0 shipHitStore) = lose.
Proof.
  assert (Ht : ~ (timeRemaining (afterTimer (t0 + 16) shipHitStore) <= 0)%Q)
    by (by vm_compute).
  assert (Hhit : hitsPlayer (advance (createBullet 640 634 false))
                   (afterMotion (t0 + 16) shipHitStore) = true)
    by (by vm_compute).
  assert (Hnone : bullets (afterMotion (t0 + 16) shipHitStore) = [])
    by (by vm_compute).
  apply (X15_ship_hit_ends_the_level (t0 + 16) 0 0 shipHitStore
           (set_lastShot t0 (createBoss t0)) (createBullet 640 634 false) []
           eq_refl eq_refl Ht eq_refl ltac:(simpl; lia) eq_refl Hhit).
  exact Hnone.
Defined.

(** X13.  [updateBullets] does to the list of player bullets exactly what
    [cullSkipping] does: every bullet is advanced and removed when it is
    above the top edge, except that the bullet which follows a removed one
    is passed over, neither advanced nor tested.  This is the list of
    player bullets of every active tick after its bullet update. *)
Theorem X13_bullet_update_as_list_function (currentTime : Z) (s : Store) :
  bullets (updateBullets s) = cullSkipping (fun b => Qltb (y b) 0) (bullets s) /\
  bullets (afterMotion currentTime s) =
    cullSkipping (fun b => Qltb (y b) 0) (bullets s).
Proof.
  split; [apply updateBullets_cullSkipping|].
  unfold afterMotion. rewrite updateBullets_cullSkipping.
  by destruct (playerMovement_frame (afterTimer currentTime s))
    as (_ & _ & -> & _).
Qed.

(** X14.  On a tick where no player bullet leaves the screen, the bullet
    update advances every bullet and removes none: it is the update the
    specification describes. *)
Theorem X14_bullet_update_without_exit (s : Store) :
  Forall (fun b => Qltb (y (advance b)) 0 = false) (bullets s) ->
  bullets (updateBullets s) = map advance (bullets s) /\
  bullets (updateBullets s) =
    advanceAndCull (fun b => Qltb (y b) 0) (bullets s).
Proof.
  intros Hall. rewrite (updateBullets_no_exit s Hall).
  by destruct (advanceAndCull_no_exit (fun b => Qltb (y b) 0) _ Hall) as [-> _].
Qed.

Lemma X14_bullet_update_without_exit_witness :
  y <$> bullets (updateBullets oneShotFired) = [632%Q].
Proof.
  assert (Hall : Forall (fun b => Qltb (y (advance b)) 0 = false)
                        (bullets oneShotFired))
    by (by repeat constructor).
  destruct (X14_bullet_update_without_exit oneShotFired Hall) as [-> _].
  by vm_compute.
Defined.



(** ** Through the menu *)

(** X16.  With the application attached, [restartGame] empties every
    collection, drops the ship and the boss and sets the outcome to
    [menu], but keeps the counters, the clock and the key flags; a new
    game started from there has no boss and no boss bullet left over, and
    [restartGame] twice is [restartGame] once. *)
Theorem X16_restart_then_start_is_clean (rnd : nat -> Q) (now : Z) (s : Store) :
  appRef s = true ->
  let r := restartGame s in
  (gameState r = menu /\ player r = None /\ boss r = None /\
   bullets r = [] /\ asteroids r = [] /\ bossBullets r = [] /\
   bulletsRemaining r = bulletsRemaining s /\
   timeRemaining r = timeRemaining s /\ keys r = keys s) /\
  restartGame r = r /\
  (let s' := startLevel1 rnd now r in
   gameState s' = level1 /\ boss s' = None /\ bossBullets s' = [] /\
   bullets s' = [] /\ length (asteroids s') = 5%nat /\
   player s' = Some createPlayer /\ bulletsRemaining s' = 10%Z).
Proof.
  intros Happ. cbv zeta. unfold startLevel1, restartGame. rewrite Happ. simpl.
  rewrite Happ. simpl. by split_and!.
Qed.

Lemma X16_restart_then_start_is_clean_witness :
  boss (startLevel1 (fun _ => 0%Q) t0 (restartGame lostLevelTwo)) = None /\
  boss lostLevelTwo <> None.
Proof.
  assert (Happ : appRef lostLevelTwo = true) by (by vm_compute).
  destruct (X16_restart_then_start_is_clean (fun _ => 0%Q) t0 lostLevelTwo Happ)
    as (_ & _ & _ & H & _).
  split; [exact H|by vm_compute].
Defined.

(** ** Degenerate boxes *)


(** ** The seconds on display *)

(** X19.  A tick that is not out of time hands the display the countdown
    rounded up to whole seconds, which is at least 1: the display reaches
    0 only with the timeout itself. *)
Theorem X19_shown_time_is_ceiling (currentTime : Z) (s : Store) :
  ~ (timeRemaining (afterTimer currentTime s) <= 0)%Q ->
  let t := timeRemaining (afterTimer currentTime s) in
  let shown := shownTime (afterTimer currentTime s) in
  (1 <= shown)%Z /\ (t <= inject_Z shown)%Q /\ (inject_Z shown - 1 < t)%Q.
Proof.
  intros Ht%Qnot_le_lt. cbv zeta. unfold shownTime.
  set (t := timeRemaining (afterTimer currentTime s)) in *.
  pose proof (Qle_ceiling t) as Hup.
  pose proof (Qceiling_lt t) as Hlo.
  assert (Hpos : (1 <= Qceiling t)%Z).
  { assert (H0 : (inject_Z 0 < inject_Z (Qceiling t))%Q).
    { eapply Qlt_le_trans; [exact Ht|exact Hup]. }
    rewrite <- Zlt_Qlt in H0. lia. }
  rewrite Z.max_r by lia. split_and!; [done|done|].
  unfold Z.sub in Hlo. rewrite inject_Z_plus in Hlo. exact Hlo.
Qed.

Lemma X19_shown_time_is_ceiling_witness :
  (1 <= shownTime (afterTimer (t0 + 16) levelOneStarted))%Z.
Proof.
  apply (X19_shown_time_is_ceiling (t0 + 16) levelOneStarted).
  by vm_compute.
Defined.
